(** * Product Performance Analysis: the metric pipeline of [Product_Analysis.py]

    A shallow embedding of the cleaning, metric-derivation, ranking and
    roll-up steps of the script (Steps 2 and 3), and the properties of
    its specification that concern them.

    Modelling conventions.
    - Numbers are IEEE-754 binary64 values ([spec_float] with precision
      53 and maximal exponent 1024), which is what a pandas [float64]
      column holds.  A missing numeric entry is NaN, as in pandas.
    - A [DataFrame] is an index plus a finite map from column names to
      typed columns; the script's variables refer to frames on a heap, so
      that in-place updates and [copy()] can be told apart.
    - Numeric columns are taken to be [float64] (what [read_csv] yields
      for a column with a decimal point or a missing entry; an integer
      below 2^53 has the same value as a double).  Arithmetic on other
      dtypes is reported as [Unsupported], which marks the border of the
      embedding, not a pandas exception.
    - In-place [fillna] on [df[col]] updates the frame itself, which is
      the pandas behaviour (before copy-on-write) the script relies on. *)

From Stdlib Require Import ZArith Lia.
From Stdlib Require Import Floats.SpecFloat.
From Stdlib Require Import DecimalString DecimalZ DecimalPos.
From Stdlib Require QArith Qcanon.
From stdpp Require Import gmap strings list sorting.
Local Open Scope Z_scope.

(** * The embedding *)

(** ** Binary64 arithmetic *)

Module F64.

Definition prec : Z := 53.

Definition emax : Z := 1024.

Definition float : Type := spec_float.

Definition nan : float := S754_nan.

Definition fadd : float → float → float := SFadd prec emax.

Definition fsub : float → float → float := SFsub prec emax.

Definition fmul : float → float → float := SFmul prec emax.

Definition fdiv : float → float → float := SFdiv prec emax.

Definition fabs : float → float := SFabs.

Definition feqb : float → float → bool := SFeqb.

Definition fleb : float → float → bool := SFleb.

Definition fltb : float → float → bool := SFltb.

(** The double holding the integer [z] (exact when |z| < 2^53). *)
Definition of_Z (z : Z) : float := binary_normalize prec emax z 0 false.

(** The double nearest to [n / 10^k]: what a decimal literal with [k]
    fractional digits denotes (both operands are exact, and division is
    correctly rounded). *)
Definition decimal (n : Z) (k : nat) : float :=
  fdiv (of_Z n) (of_Z (10 ^ Z.of_nat k)).

Definition pos_zero : float := S754_zero false.

Definition pos_inf : float := S754_infinity false.

Definition neg_inf : float := S754_infinity true.

Definition is_nan (x : float) : bool :=
  match x with S754_nan => true | _ => false end.

Definition is_zero (x : float) : bool :=
  match x with S754_zero _ => true | _ => false end.

Definition is_inf (x : float) : bool :=
  match x with S754_infinity _ => true | _ => false end.

Definition is_finite (x : float) : bool :=
  match x with S754_zero _ | S754_finite _ _ _ => true | _ => false end.

(** [numpy.rint]: round to the nearest integer, halves to even; the sign
    of a result that rounds to zero is kept. *)
Definition rint (x : float) : float :=
  match x with
  | S754_finite s m e =>
      if 0 <=? e then x
      else
        let d := 2 ^ (- e) in
        let q := Z.pos m / d in
        let r := Z.pos m mod d in
        let q' := match 2 * r ?= d with
                  | Lt => q
                  | Gt => q + 1
                  | Eq => if Z.even q then q else q + 1
                  end in
        match q' with
        | Z0 => S754_zero s
        | _ => binary_normalize prec emax (cond_Zopp s q') 0 s
        end
  | _ => x
  end.

(** [numpy.round(x, 2)]: [rint(x * 100) / 100]. *)
Definition round2 (x : float) : float :=
  fdiv (rint (fmul x (of_Z 100))) (of_Z 100).

End F64.

Import F64.

(** ** Columns, frames and the heap *)

(** A column ([Series]) with its dtype.  In a [float64] column a missing
    entry is NaN; in an [object] or [string] column it is [None]. *)
Inductive series :=
  | Float64 (xs : list float)
  | Int64 (xs : list Z)
  | Object (xs : list (option string))
  | StringDtype (xs : list (option string)).

Definition slen (s : series) : nat :=
  match s with
  | Float64 xs => length xs
  | Int64 xs => length xs
  | Object xs => length xs
  | StringDtype xs => length xs
  end.

Record DataFrame := mkFrame {
  index : series;
  columns : gmap string series
}.

Definition nrows (df : DataFrame) : nat := slen (index df).

(** Python exceptions the modelled calls can raise; [Unsupported] marks
    input outside the embedding (see the header). *)
Inductive exn :=
  | KeyError (c : string)
  | TypeError
  | ValueError
  | Unsupported.

Definition loc := nat.

Inductive outcome (A : Type) :=
  | Ok (a : A) (h : gmap loc DataFrame)
  | Raise (e : exn).

Arguments Ok {A} a h.

Arguments Raise {A} e.

(** Computations over the heap of frames that may raise. *)
Definition M (A : Type) : Type := gmap loc DataFrame → outcome A.

Definition ret {A} (a : A) : M A := λ h, Ok a h.

Definition raise {A} (e : exn) : M A := λ _, Raise e.

Definition bind {A B} (m : M A) (k : A → M B) : M B :=
  λ h, match m h with
       | Ok a h' => k a h'
       | Raise e => Raise e
       end.

Notation "'let!' x ':=' m 'in' k" := (bind m (λ x, k))
  (at level 10, x name, m at level 100, k at level 200,
   format "'[v' 'let!'  x  ':='  m  'in' '/' k ']'").

Notation "m ';;;' k" := (bind m (λ _, k))
  (at level 100, k at level 200, right associativity).

Fixpoint for_each {A} (xs : list A) (body : A → M unit) : M unit :=
  match xs with
  | [] => ret tt
  | x :: xs' => body x ;;; for_each xs' body
  end.

Definition alloc (df : DataFrame) : M loc :=
  λ h, let l := fresh (dom h) in Ok l (<[l := df]> h).

Definition load (l : loc) : M DataFrame :=
  λ h, match h !! l with
       | Some df => Ok df h
       | None => Raise Unsupported
       end.

Definition store (l : loc) (df : DataFrame) : M unit :=
  λ h, Ok tt (<[l := df]> h).

(** [df.copy()]: a new frame object with the same contents. *)
Definition copy (l : loc) : M loc :=
  let! df := load l in alloc df.

(** [df[c]] *)
Definition getitem (l : loc) (c : string) : M series :=
  let! df := load l in
  match columns df !! c with
  | Some s => ret s
  | None => raise (KeyError c)
  end.

Definition with_column (c : string) (s : series) (df : DataFrame) : DataFrame :=
  mkFrame (index df) (<[c := s]> (columns df)).

(** [df[c] = s], updating the frame object in place. *)
Definition setitem (l : loc) (c : string) (s : series) : M unit :=
  let! df := load l in
  if decide (slen s = nrows df)
  then store l (with_column c s df)
  else raise ValueError.

(** ** Column operations *)

Definition fle (x y : float) : Prop := fleb x y = true.

Global Instance fle_dec : RelDecision fle.
Proof. intros x y. unfold fle. apply _. Defined.

Definition notna (x : float) : bool := negb (is_nan x).

(** The entries of a column that are not missing. *)
Definition present (xs : list float) : list float :=
  filter (λ x, notna x = true) xs.

(** The median of numbers without NaN, as [numpy] computes it: the middle
    element of the sorted values, or the mean of the two middle ones; NaN
    when there is no value. *)
Definition median_of (xs : list float) : float :=
  let vs := merge_sort fle xs in
  let n := length vs in
  match n with
  | O => nan
  | _ =>
      if Nat.odd n then default nan (vs !! (n / 2)%nat)
      else fdiv (fadd (default nan (vs !! (n / 2 - 1)%nat))
                      (default nan (vs !! (n / 2)%nat)))
                (of_Z 2)
  end.

(** [Series.median()] on a float column skips the missing entries. *)
Definition nanmedian (xs : list float) : float := median_of (present xs).

Definition median (s : series) : M float :=
  match s with
  | Float64 xs => ret (nanmedian xs)
  | Int64 _ => raise Unsupported
  | Object _ | StringDtype _ => raise TypeError
  end.

Definition fillna (v : float) (xs : list float) : list float :=
  (λ x, if is_nan x then v else x) <$> xs.

(** [df[c].fillna(v, inplace=True)] with a number [v]. *)
Definition fillna_inplace (l : loc) (c : string) (v : float) : M unit :=
  let! s := getitem l c in
  match s with
  | Float64 xs => setitem l c (Float64 (fillna v xs))
  | _ => raise Unsupported
  end.

Definition fillna_str (v : string) (xs : list (option string)) : list (option string) :=
  (λ x, Some (default v x)) <$> xs.

(** [df[c].fillna(v, inplace=True)] with a string [v]. *)
Definition fillna_str_inplace (l : loc) (c : string) (v : string) : M unit :=
  let! s := getitem l c in
  match s with
  | Object xs => setitem l c (Object (fillna_str v xs))
  | _ => raise Unsupported
  end.

(** Python's [str] of an integer: canonical decimal digits. *)
Definition str_of_int (z : Z) : string := NilZero.string_of_int (Z.to_int z).

(** The entries of [s.astype('string')]: integers are printed, text is
    kept, a missing entry stays missing. *)
Definition as_text (s : series) : option (list (option string)) :=
  match s with
  | Int64 zs => Some ((λ z, Some (str_of_int z)) <$> zs)
  | Object xs => Some xs
  | StringDtype xs => Some xs
  | Float64 _ => None
  end.

(** [s.astype('string')] *)
Definition astype_string (s : series) : M series :=
  match as_text s with
  | Some xs => ret (StringDtype xs)
  | None => raise Unsupported
  end.

(** Element-wise arithmetic on two columns of one frame.  Columns of one
    frame have equal length; operands that do not are rejected. *)
Definition binop (f : float → float → float) (a b : series) : M series :=
  match a, b with
  | Float64 xs, Float64 ys =>
      if decide (length xs = length ys)
      then ret (Float64 (zip_with f xs ys))
      else raise ValueError
  | _, _ => raise Unsupported
  end.

Definition series_mul := binop fmul.

Definition series_sub := binop fsub.

Definition series_div := binop fdiv.

(** [s * k] for a Python number [k]. *)
Definition series_scale (a : series) (k : float) : M series :=
  match a with
  | Float64 xs => ret (Float64 ((λ x, fmul x k) <$> xs))
  | _ => raise Unsupported
  end.

(** ** Step 2 of the script: cleaning and metric derivation *)

(** Lines 30-32. *)
Definition fill_missing_numeric (df : loc) : M unit :=
  for_each ["Units Sold"; "Customer Rating"] (λ col,
    let! s := getitem df col in
    let! median_val := median s in
    fillna_inplace df col median_val).

(** Line 35. *)
Definition fill_missing_categorical (df : loc) : M unit :=
  fillna_str_inplace df "Category" "Unknown".

(** Line 39. *)
Definition coerce_identifier (df : loc) : M unit :=
  let! pid := getitem df "Product ID" in
  let! pid' := astype_string pid in
  setitem df "Product ID" pid'.

(** Lines 42-45. *)
Definition derive_metrics (df : loc) : M unit :=
  (let! u := getitem df "Units Sold" in
   let! p := getitem df "Unit Price" in
   let! tr := series_mul u p in
   setitem df "Total Revenue" tr) ;;;
  (let! u := getitem df "Units Sold" in
   let! p := getitem df "Unit Price" in
   let! c := getitem df "Cost Per Unit" in
   let! d := series_sub p c in
   let! tp := series_mul u d in
   setitem df "Total Profit" tp) ;;;
  (let! tp := getitem df "Total Profit" in
   let! tr := getitem df "Total Revenue" in
   let! q := series_div tp tr in
   let! pm := series_scale q (of_Z 100) in
   setitem df "Profit Margin (%)" pm) ;;;
  (let! u := getitem df "Units Sold" in
   let! inv := getitem df "Inventory" in
   let! it := series_div u inv in
   setitem df "Inventory Turnover" it).

(** Lines 26-45: from the loaded frame to the enriched frame [df]. *)
Definition step2 (df_raw : loc) : M loc :=
  let! df := copy df_raw in
  fill_missing_numeric df ;;;
  fill_missing_categorical df ;;;
  coerce_identifier df ;;;
  derive_metrics df ;;;
  ret df.

(** ** Step 3 of the script: ranking and roll-up *)

(** [xs[idx]] (positional take). *)
Definition take_at {A} (idx : list nat) (xs : list A) : list A :=
  omap (λ i, xs !! i) idx.

(** Applies a row selection to a column of any dtype. *)
Definition on_rows (f : ∀ A, list A → list A) (s : series) : series :=
  match s with
  | Float64 xs => Float64 (f _ xs)
  | Int64 xs => Int64 (f _ xs)
  | Object xs => Object (f _ xs)
  | StringDtype xs => StringDtype (f _ xs)
  end.

(** [df.take(idx)]: the rows at the positions [idx], with their labels. *)
Definition take_rows (idx : list nat) (df : DataFrame) : DataFrame :=
  mkFrame (on_rows (λ A, take_at idx) (index df))
          (on_rows (λ A, take_at idx) <$> columns df).

(** [idx[mask]] for [idx = start, start+1, ...]: the positions whose
    entry satisfies [P]. *)
Fixpoint where_ (P : float → bool) (start : nat) (items : list float) : list nat :=
  match items with
  | [] => []
  | x :: items' =>
      if P x then start :: where_ P (S start) items'
      else where_ P (S start) items'
  end.

Definition group_values (keys : list (option string)) (xs : list float)
    (k : string) : list float :=
  snd <$> filter (λ kx, fst kx = Some k) (zip keys xs).

Definition str_le (a b : string) : Prop := String.leb a b = true.

Global Instance str_le_dec : RelDecision str_le.
Proof. intros a b. unfold str_le. apply _. Defined.

(** The group labels of [groupby]: the distinct keys, sorted; missing
    keys form no group. *)
Definition group_keys (keys : list (option string)) : list string :=
  merge_sort str_le (remove_dups (omap id keys)).

(** The first [n] rows of a frame. *)
Definition head_frame (n : nat) (df : DataFrame) : DataFrame :=
  mkFrame (on_rows (λ A, firstn n) (index df))
          (on_rows (λ A, firstn n) <$> columns df).

Definition round_series (s : series) : series :=
  match s with
  | Float64 xs => Float64 (round2 <$> xs)
  | _ => s
  end.

(** A frame with its numeric columns rounded to two decimals. *)
Definition rounded (df : DataFrame) : DataFrame :=
  mkFrame (index df) (round_series <$> columns df).

Section Step3.

(** [numpy]'s [argsort] with [kind='quicksort'] on numbers without NaN,
    and the sum and mean kernels of [groupby]: library code the script
    calls, taken as parameters. *)
Variable argsort : list float → list nat.

Variables group_sum group_mean : list float → float.

(** pandas' [nargsort] with [na_position='last']: the entries that are
    not NaN are sorted (a descending sort reverses them before and after
    the ascending sort), the positions of the NaNs follow. *)
Definition nargsort (items : list float) (ascending : bool) : list nat :=
  let non_nans := present items in
  let non_nan_idx := where_ notna 0 items in
  let nan_idx := where_ is_nan 0 items in
  let non_nans := if ascending then non_nans else rev non_nans in
  let non_nan_idx := if ascending then non_nan_idx else rev non_nan_idx in
  let indexer := take_at (argsort non_nans) non_nan_idx in
  let indexer := if ascending then indexer else rev indexer in
  indexer ++ nan_idx.

(** [df.sort_values(by, ascending=...)]: a new frame. *)
Definition sort_values (l : loc) (by_ : string) (ascending : bool) : M loc :=
  let! df := load l in
  match columns df !! by_ with
  | Some (Float64 xs) => alloc (take_rows (nargsort xs ascending) df)
  | Some _ => raise Unsupported
  | None => raise (KeyError by_)
  end.

(** [df.head(n)]: a new frame. *)
Definition head (l : loc) (n : nat) : M loc :=
  let! df := load l in
  alloc (head_frame n df).

(** Line 66. *)
Definition top_revenue (df : loc) : M loc :=
  let! sorted := sort_values df "Total Revenue" false in
  head sorted 10.

(** Line 70. *)
Definition bottom_profit (df : loc) : M loc :=
  let! sorted := sort_values df "Total Profit" true in
  head sorted 10.

(** The frame [groupby('Category').agg(...)] builds: the group labels as
    index, and per label the two sums and the mean over the group's rows. *)
Definition grouped (keys : list (option string)) (trs tps crs : list float) : DataFrame :=
  let labels := group_keys keys in
  mkFrame (Object (Some <$> labels))
    (list_to_map
       [("Total_Revenue",
         Float64 ((λ k, group_sum (group_values keys trs k)) <$> labels));
        ("Total_Profit",
         Float64 ((λ k, group_sum (group_values keys tps k)) <$> labels));
        ("Avg_Rating",
         Float64 ((λ k, group_mean (group_values keys crs k)) <$> labels))]).

(** Lines 75-79, the [groupby(...).agg(...)] part: one row per group
    label, with the sums of Total Revenue and Total Profit and the mean
    of Customer Rating over the group's rows. *)
Definition groupby_agg (l : loc) : M loc :=
  let! cat := getitem l "Category" in
  let! tr := getitem l "Total Revenue" in
  let! tp := getitem l "Total Profit" in
  let! cr := getitem l "Customer Rating" in
  match cat, tr, tp, cr with
  | Object keys, Float64 trs, Float64 tps, Float64 crs =>
      alloc (grouped keys trs tps crs)
  | _, _, _, _ => raise Unsupported
  end.

(** [df.round(2)]: a new frame. *)
Definition round_frame (l : loc) : M loc :=
  let! df := load l in
  alloc (rounded df).

(** Lines 75-79. *)
Definition category_performance (df : loc) : M loc :=
  let! grouped := groupby_agg df in
  let! sorted := sort_values grouped "Total_Revenue" false in
  round_frame sorted.

(** The script from the loaded frame on: lines 17-79.  The printing and
    plotting statements in between and after only read the frames. *)
Definition script (parsed : DataFrame) : M (loc * loc * loc * loc * loc) :=
  let! df_raw := alloc parsed in
  let! df := step2 df_raw in
  let! top := top_revenue df in
  let! bottom := bottom_profit df in
  let! rollup := category_performance df in
  ret (df_raw, df, top, bottom, rollup).

End Step3.

(** ** The loader and the Product ID column (line 17) *)

Definition in_int64 (z : Z) : bool := (- 2 ^ 63 <=? z) && (z <? 2 ^ 63).

(** An integer literal: an optional minus sign and decimal digits, within
    the int64 range. *)
Definition parse_int64 (s : string) : option Z :=
  match NilZero.int_of_string s with
  | Some d => let z := Z.of_int d in if in_int64 z then Some z else None
  | None => None
  end.

(** [read_csv]'s first conversion attempt on the cells of a column: when
    every cell is an integer literal the column is loaded as int64.
    ([None]: the column is loaded some other way, as float, bool or text,
    which is not described here.) *)
Definition read_csv_ints (cells : list string) : option series :=
  Int64 <$> mapM parse_int64 cells.

(** ** Running the script on a loaded frame *)

(** Loads [raw] as [df_raw] into an empty heap, runs lines 26-45 and
    returns the frame [df] refers to at the end ([None] when a line
    raises). *)
Definition run_step2 (raw : DataFrame) : option DataFrame :=
  match (let! df_raw := alloc raw in step2 df_raw) ∅ with
  | Ok df h => h !! df
  | Raise _ => None
  end.

(** Loads [raw], runs the fill loop on it, and returns the frame. *)
Definition run_fill (raw : DataFrame) : option DataFrame :=
  match (let! df := alloc raw in fill_missing_numeric df ;;; ret df) ∅ with
  | Ok df h => h !! df
  | Raise _ => None
  end.

(** The frames the script's variables refer to when it ends. *)
Record report := mkReport {
  final_df_raw : DataFrame;
  final_df : DataFrame;
  final_top_revenue : DataFrame;
  final_bottom_profit : DataFrame;
  final_category_performance : DataFrame
}.

(** Runs lines 17-79 on the frame [read_csv] delivered, with the given
    kernels ([None] when a line raises). *)
Definition run_script (σ : list float → list nat) (gs gm : list float → float)
    (parsed : DataFrame) : option report :=
  match script σ gs gm parsed ∅ with
  | Ok (df_raw, df, top, bottom, rollup) h =>
      r ← h !! df_raw; e ← h !! df; t ← h !! top; b ← h !! bottom;
      c ← h !! rollup; Some (mkReport r e t b c)
  | Raise _ => None
  end.

(** ** Kernels to run it with *)

(** A sorting kernel by insertion, which keeps equal keys in input
    order, and plain left-to-right sum and mean kernels. *)
Fixpoint insert_by (before : nat → nat → bool) (i : nat) (js : list nat) : list nat :=
  match js with
  | [] => [i]
  | j :: js' => if before i j then i :: j :: js' else j :: insert_by before i js'
  end.

Definition argsort_by (before : float → float → bool) (l : list float) : list nat :=
  foldr (insert_by (λ i j, before (default nan (l !! i)) (default nan (l !! j))))
        [] (seq 0 (length l)).

Definition stable_argsort : list float → list nat := argsort_by fleb.

Definition naive_sum (xs : list float) : float := foldl fadd pos_zero (present xs).

Definition naive_mean (xs : list float) : float :=
  fdiv (naive_sum xs) (of_Z (Z.of_nat (length (present xs)))).

(** * Vocabulary of the properties *)

(** ** Loaded and enriched frames *)

(** The columns the script reads, as [read_csv] delivers them: the
    identifier column [pid] of any supported dtype, the category as text
    with gaps, and the five numeric columns, all as long as the index. *)
Record loaded (raw : DataFrame) (pid : series) (cat : list (option string))
    (us up cpu cr inv : list float) : Prop := {
  ld_pid : columns raw !! "Product ID" = Some pid;
  ld_cat : columns raw !! "Category" = Some (Object cat);
  ld_us : columns raw !! "Units Sold" = Some (Float64 us);
  ld_up : columns raw !! "Unit Price" = Some (Float64 up);
  ld_cpu : columns raw !! "Cost Per Unit" = Some (Float64 cpu);
  ld_cr : columns raw !! "Customer Rating" = Some (Float64 cr);
  ld_inv : columns raw !! "Inventory" = Some (Float64 inv);
  ld_len_pid : slen pid = nrows raw;
  ld_len_cat : length cat = nrows raw;
  ld_len_us : length us = nrows raw;
  ld_len_up : length up = nrows raw;
  ld_len_cpu : length cpu = nrows raw;
  ld_len_cr : length cr = nrows raw;
  ld_len_inv : length inv = nrows raw
}.

(** What lines 30-32 leave in a numeric column. *)
Definition median_fill (xs : list float) : list float := fillna (nanmedian xs) xs.

Definition total_revenue (us up : list float) : list float :=
  zip_with fmul (median_fill us) up.

Definition total_profit (us up cpu : list float) : list float :=
  zip_with fmul (median_fill us) (zip_with fsub up cpu).

Definition profit_margin (us up cpu : list float) : list float :=
  (λ x, fmul x (of_Z 100)) <$> zip_with fdiv (total_profit us up cpu) (total_revenue us up).

Definition inventory_turnover (us inv : list float) : list float :=
  zip_with fdiv (median_fill us) inv.

(** The frame [df] after line 45, column by column. *)
Definition enriched (raw : DataFrame) (pid_text cat : list (option string))
    (us up cpu cr inv : list float) : DataFrame :=
  with_column "Inventory Turnover" (Float64 (inventory_turnover us inv))
  (with_column "Profit Margin (%)" (Float64 (profit_margin us up cpu))
  (with_column "Total Profit" (Float64 (total_profit us up cpu))
  (with_column "Total Revenue" (Float64 (total_revenue us up))
  (with_column "Product ID" (StringDtype pid_text)
  (with_column "Category" (Object (fillna_str "Unknown" cat))
  (with_column "Customer Rating" (Float64 (median_fill cr))
  (with_column "Units Sold" (Float64 (median_fill us)) raw))))))).

(** The numbers of column [c] (none if it is absent or not numeric), and
    the one at row position [i]. *)
Definition floats (df : DataFrame) (c : string) : list float :=
  match columns df !! c with
  | Some (Float64 xs) => xs
  | _ => []
  end.

Definition cell (df : DataFrame) (c : string) (i : nat) : option float :=
  floats df c !! i.

(** The columns lines 30-45 assign. *)
Definition written_columns : list string :=
  ["Units Sold"; "Customer Rating"; "Category"; "Product ID"; "Total Revenue";
   "Total Profit"; "Profit Margin (%)"; "Inventory Turnover"].

(** ** Tolerance, exact arithmetic and the data model *)

(** [10^-9] as a double. *)
Definition tolerance : float := decimal 1 9.

(** [|a - b| <= tol] *)
Definition close_to (tol a b : float) : bool := fleb (fabs (fsub a b)) tol.

(** The formulas of lines 42-43 over any arithmetic [N]: doubles as the
    script runs them, rationals for their exact reading. *)
Class Arith (N : Type) := {
  amul : N → N → N;
  asub : N → N → N
}.

Definition revenue_formula {N} `{Arith N} (u p : N) : N := amul u p.

Definition profit_formula {N} `{Arith N} (u p c : N) : N := amul u (asub p c).

#[global] Instance binary64_arith : Arith float := {| amul := fmul; asub := fsub |}.

#[global] Instance exact_arith : Arith Qcanon.Qc :=
  {| amul := Qcanon.Qcmult; asub := Qcanon.Qcminus |}.

(** [ys[mask]]: the entries of [ys] at the positions where [mask] holds. *)
Definition mask_select (mask : list bool) (ys : list float) : list float :=
  snd <$> filter (λ by_, fst by_ = true) (zip mask ys).

(** A number that is not negative (and not NaN). *)
Definition nonneg (x : float) : Prop := fleb pos_zero x = true.

(** ** Order and sorting *)

(** An order-preserving key: sign class, then exponent, then mantissa. *)
Definition rank (x : float) : Z * Z * Z :=
  match x with
  | S754_nan => (3, 0, 0)
  | S754_infinity true => (-2, 0, 0)
  | S754_finite true m e => (-1, - e, - Z.pos m)
  | S754_zero _ => (0, 0, 0)
  | S754_finite false m e => (1, e, Z.pos m)
  | S754_infinity false => (2, 0, 0)
  end.

Definition lex_le (a b : Z * Z * Z) : Prop :=
  a.1.1 < b.1.1 ∨ (a.1.1 = b.1.1 ∧ (a.1.2 < b.1.2 ∨ (a.1.2 = b.1.2 ∧ a.2 ≤ b.2))).

(** What the script needs of [argsort]: on numbers without NaN it returns
    a permutation of the positions along which the numbers ascend.  The
    order of equal numbers is left open; [kind='quicksort'] promises none. *)
Definition argsort_correct (σ : list float → list nat) : Prop :=
  ∀ l, Forall (λ x, is_nan x = false) l →
    σ l ≡ₚ seq 0 (length l) ∧ Sorted fle (take_at (σ l) l).




(** The numbers [nargsort] hands to [argsort]. *)
Definition sort_input (items : list float) (ascending : bool) : list float :=
  if ascending then present items else rev (present items).

(** Along [ks], a later number is never larger than an earlier one, and
    the NaNs, if any, come after all numbers. *)
Definition desc_nan_last (ks : list float) : Prop :=
  ∀ i j x y, (i < j)%nat → ks !! i = Some x → ks !! j = Some y →
    is_nan y = true ∨ (is_nan x = false ∧ fle y x).

(** The sums of Total Revenue per group label, in label order. *)
Definition revenue_sums (gs : list float → float) (keys : list (option string))
    (trs : list float) : list float :=
  (λ k, gs (group_values keys trs k)) <$> group_keys keys.

(** Running a computation that only reads and allocates: the result is a
    new object holding [df'], and every object of the heap before is
    still there, unchanged. *)
Definition allocates (m : M loc) (h : gmap loc DataFrame) (df' : DataFrame) : Prop :=
  ∃ l h', m h = Ok l h' ∧ h' !! l = Some df' ∧
          ∀ l0 df0, h !! l0 = Some df0 → h' !! l0 = Some df0.

(** ** Example tables *)

(** A product as one line of the input file. *)
Record product := mkProduct {
  p_id : string;
  p_category : option string;
  p_units : float;
  p_price : float;
  p_cost : float;
  p_rating : float;
  p_inventory : float
}.

(** The frame [read_csv] builds from such lines (text identifiers, a
    range index). *)
Definition frame_of (rows : list product) : DataFrame :=
  mkFrame (Int64 (Z.of_nat <$> seq 0 (length rows)))
    (list_to_map
       [("Product ID", Object ((λ r, Some (p_id r)) <$> rows));
        ("Category", Object (p_category <$> rows));
        ("Units Sold", Float64 (p_units <$> rows));
        ("Unit Price", Float64 (p_price <$> rows));
        ("Cost Per Unit", Float64 (p_cost <$> rows));
        ("Customer Rating", Float64 (p_rating <$> rows));
        ("Inventory", Float64 (p_inventory <$> rows))]).

(** The two products of the specification's end-to-end example: A with
    10 units and B with none, both at price 5 and cost 2. *)
Definition example_raw : DataFrame :=
  mkFrame (Int64 [0; 1])
    (list_to_map
       [("Product ID", Object [Some "A"; Some "B"]);
        ("Category", Object [Some "Toys"; None]);
        ("Units Sold", Float64 [of_Z 10; of_Z 0]);
        ("Unit Price", Float64 [of_Z 5; of_Z 5]);
        ("Cost Per Unit", Float64 [of_Z 2; of_Z 2]);
        ("Customer Rating", Float64 [of_Z 4; nan]);
        ("Inventory", Float64 [of_Z 4; of_Z 0])]).

Definition empty_frame : DataFrame := mkFrame (Int64 []) ∅.

(** That table after lines 26-45, after the fill loop alone, and the
    frames at the end of the script run with the stable kernel. *)
Definition example_enriched : DataFrame :=
  default empty_frame (run_step2 example_raw).

Definition example_filled : DataFrame :=
  default empty_frame (run_fill example_raw).

Definition example_report : report :=
  default (mkReport empty_frame empty_frame empty_frame empty_frame empty_frame)
          (run_script stable_argsort naive_sum naive_mean example_raw).

(** One product with 10 units sold at a price of 0 and a cost of 2. *)
Definition free_item : product :=
  mkProduct "A" (Some "Toys") (of_Z 10) (of_Z 0) (of_Z 2) (of_Z 4) (of_Z 5).

(** Three units sold at 19.99 with a unit cost of 4.99. *)
Definition priced_item : product :=
  mkProduct "A" (Some "Toys") (of_Z 3) (decimal 1999 2) (decimal 499 2) (of_Z 4) (of_Z 5).

(** One product with 10 units sold and an inventory of 0. *)
Definition sold_out_item : product :=
  mkProduct "A" (Some "Toys") (of_Z 10) (of_Z 5) (of_Z 2) (of_Z 4) (of_Z 0).

(** A table in which no product has a Units Sold entry. *)
Definition unsold_raw : DataFrame :=
  frame_of [mkProduct "A" (Some "Toys") nan (of_Z 5) (of_Z 2) (of_Z 4) (of_Z 5);
            mkProduct "B" None nan (of_Z 7) (of_Z 3) nan (of_Z 0)].

(** Two products with the same revenue. *)
Definition tied_raw : DataFrame :=
  frame_of [mkProduct "A" (Some "Toys") (of_Z 1) (of_Z 5) (of_Z 2) (of_Z 4) (of_Z 5);
            mkProduct "B" (Some "Toys") (of_Z 1) (of_Z 5) (of_Z 2) (of_Z 4) (of_Z 5)].

(** Two products, the first without a Unit Price. *)
Definition unpriced_raw : DataFrame :=
  frame_of [mkProduct "A" (Some "Toys") (of_Z 1) nan (of_Z 2) (of_Z 4) (of_Z 5);
            mkProduct "B" (Some "Toys") (of_Z 1) (of_Z 5) (of_Z 2) (of_Z 4) (of_Z 5)].

(** The table of the two tied products with identifiers that [read_csv]
    loaded as the integers 7 and 42, and that table after lines 26-45. *)
Definition numbered_raw : DataFrame :=
  with_column "Product ID" (Int64 [7; 42]) tied_raw.

Definition numbered_enriched : DataFrame :=
  default empty_frame (run_step2 numbered_raw).

(** One product sold once at 0.125. *)
Definition eighth_raw : DataFrame :=
  frame_of [mkProduct "A" (Some "Toys") (of_Z 1) (decimal 125 3) (of_Z 0) (of_Z 4) (of_Z 5)].

(** * The report lines and further vocabulary *)

(** ** Step 5 of the script: the rows the report names (lines 141-146) *)

(** One entry of a column. *)
Inductive scalar :=
  | FloatVal (x : float)
  | IntVal (z : Z)
  | TextVal (s : option string).

Definition series_get (s : series) (i : nat) : option scalar :=
  match s with
  | Float64 xs => FloatVal <$> xs !! i
  | Int64 xs => IntVal <$> xs !! i
  | Object xs => TextVal <$> xs !! i
  | StringDtype xs => TextVal <$> xs !! i
  end.

(** A row taken out of a frame: its index label as name and its entry in
    every column. *)
Record row := mkRow {
  row_name : scalar;
  row_fields : gmap string scalar
}.

(** The result of a positional access, which raises [IndexError] when the
    position is out of bounds. *)
Inductive positional (A : Type) :=
  | At (a : A)
  | IndexError.
Arguments At {A} a.
Arguments IndexError {A}.

(** [df.iloc[i]] *)
Definition iloc (i : nat) (df : DataFrame) : positional row :=
  match series_get (index df) i with
  | Some label => At (mkRow label (omap (λ s, series_get s i) (columns df)))
  | None => IndexError
  end.

(** Lines 141, 145 and 146, in that order: [top_category], [top_product]
    and [bottom_product].  The printing in between only reads. *)
Definition step5 (rep : report) : positional (row * row * row) :=
  match iloc 0 (final_category_performance rep) with
  | IndexError => IndexError
  | At top_category =>
      match iloc 0 (final_top_revenue rep) with
      | IndexError => IndexError
      | At top_product =>
          match iloc 0 (final_bottom_profit rep) with
          | IndexError => IndexError
          | At bottom_product => At (top_category, top_product, bottom_product)
          end
      end
  end.

(** ** Further vocabulary *)

(** Lines 26-45 on a freshly loaded frame, with the exception if one is
    raised. *)
Definition step2_outcome (raw : DataFrame) : outcome loc :=
  (let! df_raw := alloc raw in step2 df_raw) ∅.

(** The columns lines 30-45 read from the loaded frame. *)
Definition read_columns : list string :=
  ["Units Sold"; "Customer Rating"; "Category"; "Product ID"; "Unit Price";
   "Cost Per Unit"; "Inventory"].

(** The entries of a text column (none if it is absent or numeric). *)
Definition texts (df : DataFrame) (c : string) : list (option string) :=
  match columns df !! c with
  | Some (Object xs) => xs
  | Some (StringDtype xs) => xs
  | _ => []
  end.

(** Along [ks], a later number is never smaller than an earlier one, and
    the NaNs, if any, come after all numbers. *)
Definition asc_nan_last (ks : list float) : Prop :=
  ∀ i j x y, (i < j)%nat → ks !! i = Some x → ks !! j = Some y →
    is_nan y = true ∨ (is_nan x = false ∧ fle x y).

(** [x] is a largest (smallest) number of [ks]: no number of [ks] exceeds
    it, and it is NaN only if every entry of [ks] is. *)
Definition largest_of (ks : list float) (x : float) : Prop :=
  x ∈ ks ∧
  ∀ y, y ∈ ks → if is_nan x then is_nan y = true
                else is_nan y = true ∨ fle y x.

Definition smallest_of (ks : list float) (x : float) : Prop :=
  x ∈ ks ∧
  ∀ y, y ∈ ks → if is_nan x then is_nan y = true
                else is_nan y = true ∨ fle x y.

(** Every column of a frame has one entry per row (pandas keeps this for
    every frame it builds). *)
Definition well_formed (df : DataFrame) : Prop :=
  map_Forall (λ _ s, slen s = nrows df) (columns df).

(** ** The printed tables (lines 67 and 71) *)

(** The distinct labels of a list, in order of first occurrence. *)
Fixpoint unique (seen cs : list string) : list string :=
  match cs with
  | [] => []
  | c :: cs' =>
      if decide (c ∈ seen) then unique seen cs' else c :: unique (c :: seen) cs'
  end.

(** Python's [repr] of a list of labels (labels without quotes or
    escapes, as all labels of the script are). *)
Definition labels_repr (cs : list string) : string :=
  "[" +:+ String.concat ", " ((λ c, "'" +:+ c +:+ "'") <$> cs) +:+ "]".

(** [df[cols]] for a list of labels: a new frame with these columns.
    When some of the labels are not columns, pandas raises a KeyError that
    lists them; the text it uses when none of the labels is a column is
    not described here. *)
Definition select (l : loc) (cols : list string) : M loc :=
  let! df := load l in
  let absent := filter (λ c, columns df !! c = None) cols in
  if decide (absent = []) then
    alloc (mkFrame (index df) (filter (λ kv, kv.1 ∈ cols) (columns df)))
  else if decide (length absent = length cols) then raise Unsupported
  else raise (KeyError (labels_repr (unique [] absent) +:+ " not in index")).

(** The frame line 67 prints. *)
Definition print_top_revenue (top : loc) : M loc :=
  let! shown := select top ["Product Name"; "Category"; "Total Revenue"; "Total Profit"] in
  round_frame shown.

(** The frame line 71 prints. *)
Definition print_bottom_profit (bottom : loc) : M loc :=
  let! shown := select bottom ["Product Name"; "Category"; "Total Profit"; "Units Sold"] in
  round_frame shown.

(** Lines 17-79 with the two tables of products that are printed on the
    way. *)
Definition script_with_tables (σ : list float → list nat) (gs gm : list float → float)
    (parsed : DataFrame) : M (loc * loc * loc * loc * loc) :=
  let! df_raw := alloc parsed in
  let! df := step2 df_raw in
  let! top := top_revenue σ df in
  let! shown_top := print_top_revenue top in
  let! bottom := bottom_profit σ df in
  let! shown_bottom := print_bottom_profit bottom in
  let! rollup := category_performance σ gs gm df in
  ret (df_raw, df, top, bottom, rollup).

(** The frames the variables refer to at the end of a run. *)
Definition report_of (o : outcome (loc * loc * loc * loc * loc)) : option report :=
  match o with
  | Ok (df_raw, df, top, bottom, rollup) h =>
      r ← h !! df_raw; e ← h !! df; t ← h !! top; b ← h !! bottom;
      c ← h !! rollup; Some (mkReport r e t b c)
  | Raise _ => None
  end.

(** ** Further example tables *)

(** The example table without its Inventory column. *)
Definition no_inventory_raw : DataFrame :=
  mkFrame (index example_raw) (delete "Inventory" (columns example_raw)).

(** The example table with product names. *)
Definition named_raw : DataFrame :=
  with_column "Product Name" (Object [Some "Ball"; Some "Kite"]) example_raw.

(** A table whose Units Sold column holds minus infinity, plus infinity
    and one missing entry. *)
Definition unbounded_raw : DataFrame :=
  frame_of [mkProduct "A" (Some "Toys") neg_inf (of_Z 5) (of_Z 2) (of_Z 4) (of_Z 5);
            mkProduct "B" (Some "Toys") pos_inf (of_Z 5) (of_Z 2) (of_Z 4) (of_Z 5);
            mkProduct "C" (Some "Toys") nan (of_Z 5) (of_Z 2) (of_Z 4) (of_Z 5)].

(** A table with a negative Units Sold entry (returns), an infinite one
    and a missing one, and that table after the fill loop. *)
Definition returns_raw : DataFrame :=
  frame_of [mkProduct "A" (Some "Toys") (of_Z (-3)) (of_Z 5) (of_Z 2) (of_Z 4) (of_Z 5);
            mkProduct "B" (Some "Toys") pos_inf (of_Z 5) (of_Z 2) (of_Z 4) (of_Z 5);
            mkProduct "C" (Some "Toys") nan (of_Z 5) (of_Z 2) nan (of_Z 5);
            mkProduct "D" (Some "Toys") (of_Z 2) (of_Z 5) (of_Z 2) (of_Z 3) (of_Z 5)].

Definition returns_filled : DataFrame :=
  default empty_frame (run_fill returns_raw).

(** A product sold once, at a cost of 1. *)
Definition sold_once (id : string) (price : float) : product :=
  mkProduct id (Some "Toys") (of_Z 1) price (of_Z 1) (of_Z 4) (of_Z 5).

(** Twelve products sold once each, with tied prices and one missing
    price, and the frames at the end of the script run with the stable
    kernel. *)
Definition dozen_raw : DataFrame :=
  frame_of
    [sold_once "P01" (of_Z 5); sold_once "P02" (of_Z 7); sold_once "P03" (of_Z 5);
     sold_once "P04" nan; sold_once "P05" (of_Z 9); sold_once "P06" (of_Z 7);
     sold_once "P07" (of_Z 3); sold_once "P08" (of_Z 5); sold_once "P09" (of_Z 11);
     sold_once "P10" (of_Z 2); sold_once "P11" (of_Z 7); sold_once "P12" (of_Z 1)].

Definition dozen_report : report :=
  default (mkReport empty_frame empty_frame empty_frame empty_frame empty_frame)
          (run_script stable_argsort naive_sum naive_mean dozen_raw).

(** * Properties *)

Example of_Z_100 : of_Z 100 = S754_finite false 7036874417766400 (-46).
Proof. reflexivity. Qed.

Example decimal_tenth : decimal 1 1 = S754_finite false 7205759403792794 (-56).
Proof. vm_compute. reflexivity. Qed.

Example round2_eighth : round2 (decimal 125 3) = decimal 12 2.
Proof. vm_compute. reflexivity. Qed.

Example rint_half_even : rint (decimal 25 1) = of_Z 2 ∧ rint (decimal 35 1) = of_Z 4.
Proof. vm_compute. done. Qed.

(** ** Rounding never invents a NaN *)

Section RoundNotNan.

Lemma shr_1_nonneg mrs : 0 ≤ shr_m mrs → 0 ≤ shr_m (shr_1 mrs).
Proof.
  destruct mrs as [m r s]; simpl.
  destruct m as [|[p|p|]|[p|p|]]; simpl; lia.
Qed.

Lemma iter_pos_shr_1_nonneg p mrs :
  0 ≤ shr_m mrs → 0 ≤ shr_m (SpecFloat.iter_pos shr_1 p mrs).
Proof.
  revert mrs. induction p as [p IH|p IH|]; intros mrs H; simpl.
  - apply IH, IH, shr_1_nonneg, H.
  - apply IH, IH, H.
  - apply shr_1_nonneg, H.
Qed.

Lemma shr_record_of_loc_m m l : shr_m (shr_record_of_loc m l) = m.
Proof. destruct l as [|[]]; reflexivity. Qed.

Lemma shr_fexp_nonneg m e l :
  0 ≤ m → 0 ≤ shr_m (fst (shr_fexp prec emax m e l)).
Proof.
  intros H. unfold shr_fexp, shr.
  destruct (fexp prec emax (Zdigits2 m + e) - e) as [|p|p]; simpl;
    rewrite ?shr_record_of_loc_m; try done.
  apply iter_pos_shr_1_nonneg. by rewrite shr_record_of_loc_m.
Qed.

Lemma round_nearest_even_nonneg m l : 0 ≤ m → 0 ≤ round_nearest_even m l.
Proof.
  intros H. destruct l as [|[]]; simpl; try lia.
  destruct (Z.even m); lia.
Qed.

Lemma binary_round_aux_not_nan s m e l :
  0 ≤ m → is_nan (binary_round_aux prec emax s m e l) = false.
Proof.
  intros H. unfold binary_round_aux.
  pose proof (shr_fexp_nonneg m e l H) as H1.
  destruct (shr_fexp prec emax m e l) as [mrs' e']; simpl in H1.
  pose proof (shr_fexp_nonneg _ e' loc_Exact
                (round_nearest_even_nonneg _ (loc_of_shr_record mrs') H1)) as H2.
  destruct (shr_fexp prec emax (round_nearest_even _ _) e' loc_Exact)
    as [mrs'' e'']; simpl in H2.
  destruct (shr_m mrs'') as [|p|p]; [done| |lia].
  by destruct (e'' <=? emax - prec).
Qed.

Lemma binary_round_not_nan s m e :
  is_nan (binary_round prec emax s m e) = false.
Proof.
  unfold binary_round.
  destruct (shl_align m e _) as [mz ez].
  by apply binary_round_aux_not_nan.
Qed.

Lemma binary_normalize_not_nan m e sz :
  is_nan (binary_normalize prec emax m e sz) = false.
Proof. destruct m; simpl; auto using binary_round_not_nan. Qed.

Lemma SFdiv_core_binary_nonneg m1 e1 m2 e2 :
  0 ≤ fst (fst (SFdiv_core_binary prec emax (Z.pos m1) e1 (Z.pos m2) e2)).
Proof.
  unfold SFdiv_core_binary.
  set (s := _ - _ - _).
  set (m' := match s with Z.pos _ => _ | Z0 => _ | Z.neg _ => _ end).
  assert (0 ≤ m') as Hm'.
  { subst m'. destruct s; try lia. apply Z.shiftl_nonneg. lia. }
  pose proof (Z_div_mod m' (Z.pos m2) eq_refl) as Hdm.
  destruct (Z.div_eucl m' (Z.pos m2)) as [q r]; simpl.
  destruct Hdm as [Heq Hr]. nia.
Qed.

End RoundNotNan.

(** When a product or a quotient is NaN. *)

Lemma fmul_is_nan x y :
  is_nan (fmul x y) =
  is_nan x || is_nan y || (is_inf x && is_zero y) || (is_zero x && is_inf y).
Proof.
  destruct x, y; simpl; try reflexivity.
  by apply binary_round_aux_not_nan.
Qed.

Lemma fdiv_is_nan x y :
  is_nan (fdiv x y) =
  is_nan x || is_nan y || (is_inf x && is_inf y) || (is_zero x && is_zero y).
Proof.
  destruct x as [sx|sx| |sx mx ex], y as [sy|sy| |sy my ey]; simpl; try reflexivity.
  unfold fdiv, SFdiv.
  pose proof (SFdiv_core_binary_nonneg mx ex my ey) as H.
  destruct (SFdiv_core_binary _ _ _ _ _ _) as [[mz ez] lz]; simpl in H.
  by apply binary_round_aux_not_nan.
Qed.

Lemma fdiv_by_finite_nonzero x y :
  is_nan x = false → is_finite y = true → is_zero y = false →
  is_nan (fdiv x y) = false.
Proof.
  intros Hx Hy Hz. rewrite fdiv_is_nan, Hx, Hz.
  destruct y; try done. simpl. by rewrite !andb_false_r.
Qed.

(** A finite value minus itself is [+0], so it passes any absolute
    tolerance test [|a - b| <= tol] against itself. *)
Lemma fsub_diag x : is_finite x = true → fsub x x = pos_zero.
Proof.
  destruct x as [[]|?| |s m e]; simpl; try done.
  intros _. unfold fsub, SFsub. by rewrite Z.sub_diag.
Qed.

(** ** Running the script's steps *)

Section Run.

Context {A : Type}.

Implicit Types (h : gmap loc DataFrame) (df : DataFrame) (l : loc).

Lemma bind_assoc {B C} (m : M B) (k : B → M C) (k' : C → M A) h :
  bind (bind m k) k' h = bind m (λ b, bind (k b) k') h.
Proof. unfold bind. by destruct (m h). Qed.

Lemma bind_ret {B} (b : B) (k : B → M A) h : bind (ret b) k h = k b h.
Proof. reflexivity. Qed.

Lemma getitem_run h l df c s (k : series → M A) :
  columns df !! c = Some s →
  bind (getitem l c) k (<[l := df]> h) = k s (<[l := df]> h).
Proof.
  intros Hc. unfold getitem, bind, load.
  rewrite lookup_insert_eq. simpl. by rewrite Hc.
Qed.

Lemma getitem_missing h l df c (k : series → M A) :
  columns df !! c = None →
  bind (getitem l c) k (<[l := df]> h) = Raise (KeyError c).
Proof.
  intros Hc. unfold getitem, bind, load.
  rewrite lookup_insert_eq. simpl. by rewrite Hc.
Qed.

Lemma setitem_run h l df c s (k : unit → M A) :
  slen s = nrows df →
  bind (setitem l c s) k (<[l := df]> h) = k tt (<[l := with_column c s df]> h).
Proof.
  intros Hlen. unfold setitem, bind, load, store.
  rewrite lookup_insert_eq. simpl.
  rewrite decide_True by done. by rewrite insert_insert_eq.
Qed.

End Run.

Lemma length_fillna v xs : length (fillna v xs) = length xs.
Proof. apply length_fmap. Qed.

Lemma length_median_fill xs : length (median_fill xs) = length xs.
Proof. apply length_fillna. Qed.

Lemma length_fillna_str v xs : length (fillna_str v xs) = length xs.
Proof. apply length_fmap. Qed.

Lemma length_as_text s xs : as_text s = Some xs → length xs = slen s.
Proof. destruct s; simpl; intros [= <-]; by rewrite ?length_fmap. Qed.

Lemma nrows_with_column c s df : nrows (with_column c s df) = nrows df.
Proof. reflexivity. Qed.

Ltac col_lookup :=
  cbn [columns with_column];
  repeat (rewrite lookup_insert_ne by done);
  first [ by rewrite lookup_insert_eq | eassumption ].

Ltac col_len :=
  rewrite ?nrows_with_column; cbn [slen];
  unfold profit_margin, inventory_turnover, total_profit, total_revenue, median_fill;
  rewrite ?length_fmap, ?length_zip_with, ?length_fillna, ?length_fillna_str,
    ?length_zip_with;
  unfold nrows in *; lia.

Ltac mnorm := repeat rewrite bind_assoc; cbv beta iota.

Ltac mget s := mnorm; rewrite (getitem_run _ _ _ _ s) by col_lookup.

Ltac mset := mnorm; rewrite setitem_run by col_len.

Ltac mret := mnorm; rewrite bind_ret.

Ltac mlen := mnorm; rewrite decide_True by col_len.

Lemma step2_run h df_raw raw pid pid_text cat us up cpu cr inv :
  h !! df_raw = Some raw →
  loaded raw pid cat us up cpu cr inv →
  as_text pid = Some pid_text →
  step2 df_raw h =
    Ok (fresh (dom h))
       (<[fresh (dom h) := enriched raw pid_text cat us up cpu cr inv]> h).
Proof.
  intros Hraw [] Htext.
  pose proof (length_as_text _ _ Htext) as Hlt.
  unfold step2, copy. rewrite bind_assoc.
  unfold bind at 1, load. rewrite Hraw.
  unfold bind at 1, alloc. cbv zeta.
  set (l := fresh (dom h)).
  unfold fill_missing_numeric, for_each, fill_missing_categorical,
    coerce_identifier, derive_metrics, median, fillna_inplace,
    fillna_str_inplace, astype_string, series_mul, series_sub, series_div,
    series_scale, binop.
  (* lines 30-32 *)
  mget (Float64 us). mret. mget (Float64 us). mset.
  mget (Float64 cr). mret. mget (Float64 cr). mset. mret.
  (* line 35 *)
  mget (Object cat). mset.
  (* line 39 *)
  mget pid. rewrite Htext. mret. mset.
  (* line 42 *)
  mget (Float64 (median_fill us)). mget (Float64 up). mlen. mret. mset.
  (* line 43 *)
  mget (Float64 (median_fill us)). mget (Float64 up). mget (Float64 cpu).
  mlen. mret. mlen. mret. mset.
  (* line 44 *)
  mget (Float64 (total_profit us up cpu)). mget (Float64 (total_revenue us up)).
  mlen. mret. mret. mset.
  (* line 45 *)
  mget (Float64 (median_fill us)). mget (Float64 inv). mlen. mret. mset.
  reflexivity.
Qed.

Lemma setitem_fails {A} h l df c s (k : unit → M A) :
  slen s ≠ nrows df →
  bind (setitem l c s) k (<[l := df]> h) = Raise ValueError.
Proof.
  intros Hlen. unfold setitem, bind, load.
  rewrite lookup_insert_eq. simpl. by rewrite decide_False.
Qed.

(** On a frame with the columns the script reads, lines 26-45 run
    through. *)
Lemma run_step2_loaded raw pid pid_text cat us up cpu cr inv :
  loaded raw pid cat us up cpu cr inv →
  as_text pid = Some pid_text →
  run_step2 raw = Some (enriched raw pid_text cat us up cpu cr inv).
Proof.
  intros Hld Htext. unfold run_step2, bind at 1, alloc. cbv zeta.
  erewrite step2_run; [|apply lookup_insert_eq|done..].
  apply lookup_insert_eq.
Qed.

Ltac mget_cases c :=
  mnorm;
  match goal with
  | |- context [bind (getitem _ c) _ (<[_ := ?df]> _)] =>
      let s := fresh "s" in
      let Hs := fresh "Hcol" in
      destruct (columns df !! c) as [s|] eqn:Hs;
      [ rewrite (getitem_run _ _ _ _ s) by exact Hs
      | rewrite getitem_missing by exact Hs; done ];
      cbn [columns with_column] in Hs;
      repeat (rewrite lookup_insert_ne in Hs by done)
  end.

Ltac mlen_cases :=
  mnorm;
  match goal with
  | |- context [decide (length ?xs = length ?ys)] =>
      let Hlen := fresh "Hlen" in
      destruct (decide (length xs = length ys)) as [Hlen|Hlen]; [|done]
  end.

Ltac mset_cases :=
  mnorm;
  match goal with
  | |- context [bind (setitem _ _ ?s) _ (<[_ := ?df]> _)] =>
      let Hlen := fresh "Hlen" in
      destruct (decide (slen s = nrows df)) as [Hlen|Hlen];
      [ rewrite setitem_run by exact Hlen
      | rewrite setitem_fails by exact Hlen; done ];
      rewrite ?nrows_with_column in Hlen; cbn [slen] in Hlen
  end.

(** Conversely, when lines 26-45 run through, the loaded frame had the
    columns the script reads, and [df] is the frame described above. *)
Lemma run_step2_inv raw enr :
  run_step2 raw = Some enr →
  ∃ pid pid_text cat us up cpu cr inv,
    loaded raw pid cat us up cpu cr inv ∧
    as_text pid = Some pid_text ∧
    enr = enriched raw pid_text cat us up cpu cr inv.
Proof.
  unfold run_step2, bind at 1, alloc. cbv zeta.
  set (l0 := fresh (dom (∅ : gmap loc DataFrame))).
  unfold step2, copy. rewrite bind_assoc.
  unfold bind at 1, load. rewrite lookup_insert_eq.
  unfold bind at 1, alloc. cbv zeta.
  set (l := fresh (dom _)). set (h := <[l0 := raw]> ∅).
  unfold fill_missing_numeric, for_each, fill_missing_categorical,
    coerce_identifier, derive_metrics, median, fillna_inplace,
    fillna_str_inplace, astype_string, series_mul, series_sub, series_div,
    series_scale, binop.
  mget_cases "Units Sold". destruct s as [us| | |]; mnorm; try done.
  mret. mget (Float64 us). mset_cases.
  mget_cases "Customer Rating". destruct s as [cr| | |]; mnorm; try done.
  mret. mget (Float64 cr). mset_cases. mret.
  mget_cases "Category". destruct s as [| |cat|]; mnorm; try done.
  mset_cases.
  mget_cases "Product ID". rename s into pid.
  destruct (as_text pid) as [pid_text|] eqn:Htext; mnorm; try done.
  mret. mset_cases.
  mget (Float64 (median_fill us)).
  mget_cases "Unit Price". destruct s as [up| | |]; mnorm; try done.
  mlen_cases. mret. mset_cases.
  mget (Float64 (median_fill us)). mget (Float64 up).
  mget_cases "Cost Per Unit". destruct s as [cpu| | |]; mnorm; try done.
  mlen_cases. mret. mlen_cases. mret. mset_cases.
  mget (Float64 (total_profit us up cpu)). mget (Float64 (total_revenue us up)).
  mlen_cases. mret. mret. mset_cases.
  mget (Float64 (median_fill us)).
  mget_cases "Inventory". destruct s as [inv| | |]; mnorm; try done.
  mlen_cases. mret. mset_cases.
  unfold ret. rewrite lookup_insert_eq. intros [= <-].
  rewrite ?length_fillna, ?length_fillna_str, ?length_median_fill in *.
  exists pid, pid_text, cat, us, up, cpu, cr, inv. split; [|done].
  pose proof (length_as_text _ _ Htext).
  split; try done; lia.
Qed.

(** ** Rows of the enriched frame *)

Lemma floats_lookup df c xs :
  columns df !! c = Some (Float64 xs) → floats df c = xs.
Proof. unfold floats. by intros ->. Qed.

Lemma cell_lookup df c xs i :
  columns df !! c = Some (Float64 xs) → cell df c i = xs !! i.
Proof. unfold cell. by intros ->%floats_lookup. Qed.

Lemma lookup_median_fill xs i x :
  xs !! i = Some x →
  median_fill xs !! i = Some (if is_nan x then nanmedian xs else x).
Proof. intros H. unfold median_fill, fillna. by rewrite list_lookup_fmap, H. Qed.

(** Every row of the enriched frame: its base numbers and the four
    derived numbers, as lines 42-45 compute them.  [u0] is Units Sold as
    loaded and [u] after the fill of lines 30-32. *)
Lemma enriched_row raw enr i :
  run_step2 raw = Some enr →
  (i < nrows enr)%nat →
  ∃ u0 u p c v,
    cell raw "Units Sold" i = Some u0 ∧
    u = (if is_nan u0 then nanmedian (floats raw "Units Sold") else u0) ∧
    cell enr "Units Sold" i = Some u ∧
    cell enr "Unit Price" i = Some p ∧
    cell enr "Cost Per Unit" i = Some c ∧
    cell enr "Inventory" i = Some v ∧
    cell enr "Total Revenue" i = Some (fmul u p) ∧
    cell enr "Total Profit" i = Some (fmul u (fsub p c)) ∧
    cell enr "Profit Margin (%)" i =
      Some (fmul (fdiv (fmul u (fsub p c)) (fmul u p)) (of_Z 100)) ∧
    cell enr "Inventory Turnover" i = Some (fdiv u v).
Proof.
  intros Hrun Hi.
  apply run_step2_inv in Hrun
    as (pid & pid_text & cat & us & up & cpu & cr & inv & [] & Htext & ->).
  change (nrows (enriched _ _ _ _ _ _ _ _)) with (nrows raw) in Hi.
  destruct (lookup_lt_is_Some_2 us i) as [u0 Hu0]; [lia|].
  destruct (lookup_lt_is_Some_2 up i) as [p Hp]; [lia|].
  destruct (lookup_lt_is_Some_2 cpu i) as [c Hc]; [lia|].
  destruct (lookup_lt_is_Some_2 inv i) as [v Hv]; [lia|].
  pose proof (lookup_median_fill _ _ _ Hu0) as Hu.
  exists u0, (if is_nan u0 then nanmedian us else u0), p, c, v.
  rewrite (floats_lookup raw _ us) by done.
  split; [by erewrite cell_lookup|]. split; [done|].
  unfold enriched.
  repeat split.
  - by erewrite cell_lookup by col_lookup.
  - by erewrite cell_lookup by col_lookup.
  - by erewrite cell_lookup by col_lookup.
  - by erewrite cell_lookup by col_lookup.
  - erewrite cell_lookup by col_lookup.
    unfold total_revenue. by rewrite lookup_zip_with, Hu, Hp.
  - erewrite cell_lookup by col_lookup.
    unfold total_profit. by rewrite !lookup_zip_with, Hu, Hp, Hc.
  - erewrite cell_lookup by col_lookup.
    unfold profit_margin, total_profit, total_revenue.
    by rewrite list_lookup_fmap, !lookup_zip_with, Hu, Hp, Hc.
  - erewrite cell_lookup by col_lookup.
    unfold inventory_turnover. by rewrite lookup_zip_with, Hu, Hv.
Qed.

Lemma loaded_frame_of rows :
  loaded (frame_of rows) (Object ((λ r, Some (p_id r)) <$> rows))
    (p_category <$> rows) (p_units <$> rows) (p_price <$> rows)
    (p_cost <$> rows) (p_rating <$> rows) (p_inventory <$> rows).
Proof.
  split; try (unfold frame_of, list_to_map; cbn [columns foldr uncurry fst snd]; col_lookup);
    unfold nrows; simpl; by rewrite !length_fmap, ?length_seq.
Qed.

Example tolerance_bits : tolerance = S754_finite false 4835703278458517 (-82).
Proof. vm_compute. reflexivity. Qed.

Lemma close_to_refl x : is_finite x = true → close_to tolerance x x = true.
Proof. intros H. unfold close_to. by rewrite fsub_diag. Qed.

(** ** Derived metrics (lines 42-45) *)

Lemma is_nan_times_100 x : is_nan (fmul x (of_Z 100)) = is_nan x.
Proof. rewrite fmul_is_nan. destruct x; reflexivity. Qed.

Lemma fmul_zero_left u x : is_zero u = true → is_zero (fmul u x) || is_nan (fmul u x) = true.
Proof. destruct u, x; simpl; done. Qed.

Lemma fdiv_zero_or_nan x y :
  is_zero x || is_nan x = true → is_zero y || is_nan y = true →
  is_nan (fdiv x y) = true.
Proof. destruct x, y; simpl; done. Qed.

Lemma fdiv_by_zero x y :
  is_zero y = true → is_nan x = false → is_zero x = false →
  is_inf (fdiv x y) = true.
Proof. destruct x, y; simpl; done. Qed.

Lemma is_inf_times_100 x : is_inf x = true → is_inf (fmul x (of_Z 100)) = true.
Proof. destruct x; simpl; done. Qed.

Lemma run_step2_example : run_step2 example_raw = Some example_enriched.
Proof. vm_compute. reflexivity. Qed.

Lemma run_script_example :
  run_script stable_argsort naive_sum naive_mean example_raw = Some example_report.
Proof. vm_compute. reflexivity. Qed.

(** The specification's end-to-end example: revenues 50 and 0, profits 30
    and 0, margins 60 and NaN. *)
Example end_to_end_example :
  floats example_enriched "Total Revenue" = [of_Z 50; pos_zero] ∧
  floats example_enriched "Total Profit" = [of_Z 30; pos_zero] ∧
  floats example_enriched "Profit Margin (%)" = [of_Z 60; nan].
Proof. vm_compute. done. Qed.

(** C1, as stated, fails: with Units Sold = 10, Unit Price = 0 and Cost Per
    Unit = 2 the row has Total Revenue = 0, yet its Profit Margin (%) is
    minus infinity, not NaN. *)
Lemma profit_margin_zero_revenue_not_nan :
  ∃ enr tr pm,
    run_step2 (frame_of [free_item]) = Some enr ∧
    cell enr "Total Revenue" 0 = Some tr ∧
    cell enr "Profit Margin (%)" 0 = Some pm ∧
    feqb tr pos_zero = true ∧
    pm = neg_inf ∧ is_nan pm = false.
Proof.
  eexists _, _, _. split; [vm_compute; reflexivity|].
  repeat split; vm_compute; reflexivity.
Qed.

(** C1, amended: for every row of the enriched table, Profit Margin (%) is
    (Total Profit / Total Revenue) * 100 in double arithmetic. It is NaN
    exactly when Total Profit or Total Revenue is NaN, both are zero, or
    both are infinite; in particular it is NaN whenever Units Sold is 0.
    When Total Revenue is 0 and Total Profit is a nonzero number it is
    plus or minus infinity. *)
Theorem profit_margin_nan_cases raw enr i :
  run_step2 raw = Some enr →
  (i < nrows enr)%nat →
  ∃ u tp tr pm,
    cell enr "Units Sold" i = Some u ∧
    cell enr "Total Profit" i = Some tp ∧
    cell enr "Total Revenue" i = Some tr ∧
    cell enr "Profit Margin (%)" i = Some pm ∧
    pm = fmul (fdiv tp tr) (of_Z 100) ∧
    is_nan pm = is_nan tp || is_nan tr || (is_inf tp && is_inf tr)
                || (is_zero tp && is_zero tr) ∧
    (is_zero u = true → is_nan pm = true) ∧
    (is_zero tr = true → is_nan tp = false → is_zero tp = false →
     is_inf pm = true).
Proof.
  intros Hrun Hi.
  destruct (enriched_row raw enr i Hrun Hi)
    as (u0 & u & p & c & v & _ & _ & Hu & _ & _ & _ & Htr & Htp & Hpm & _).
  exists u, (fmul u (fsub p c)), (fmul u p), (fmul (fdiv (fmul u (fsub p c)) (fmul u p)) (of_Z 100)).
  repeat split; try done.
  - by rewrite is_nan_times_100, fdiv_is_nan.
  - intros Hz. rewrite is_nan_times_100.
    apply fdiv_zero_or_nan; by apply fmul_zero_left.
  - intros Hz Hn Hnz. by apply is_inf_times_100, fdiv_by_zero.
Qed.

Lemma profit_margin_nan_cases_witness :
  ∃ u tp tr pm,
    cell example_enriched "Units Sold" 1 = Some u ∧
    cell example_enriched "Total Profit" 1 = Some tp ∧
    cell example_enriched "Total Revenue" 1 = Some tr ∧
    cell example_enriched "Profit Margin (%)" 1 = Some pm ∧
    pm = fmul (fdiv tp tr) (of_Z 100) ∧
    is_nan pm = is_nan tp || is_nan tr || (is_inf tp && is_inf tr)
                || (is_zero tp && is_zero tr) ∧
    (is_zero u = true → is_nan pm = true) ∧
    (is_zero tr = true → is_nan tp = false → is_zero tp = false →
     is_inf pm = true).
Proof.
  apply (profit_margin_nan_cases example_raw example_enriched 1%nat).
  - exact run_step2_example.
  - vm_compute. lia.
Defined.

(** C2: for every row of the enriched table, Total Revenue is the double
    product of the row's Units Sold (as left by the median fill) and Unit
    Price; being the same double, it passes the 1e-9 tolerance test
    whenever it is finite. *)
Theorem total_revenue_is_units_times_price raw enr i :
  run_step2 raw = Some enr →
  (i < nrows enr)%nat →
  ∃ u0 u p tr,
    cell raw "Units Sold" i = Some u0 ∧
    u = (if is_nan u0 then nanmedian (floats raw "Units Sold") else u0) ∧
    cell enr "Units Sold" i = Some u ∧
    cell enr "Unit Price" i = Some p ∧
    cell enr "Total Revenue" i = Some tr ∧
    tr = fmul u p ∧
    (is_finite tr = true → close_to tolerance tr (fmul u p) = true).
Proof.
  intros Hrun Hi.
  destruct (enriched_row raw enr i Hrun Hi)
    as (u0 & u & p & c & v & Hu0 & Hfill & Hu & Hp & _ & _ & Htr & _).
  exists u0, u, p, (fmul u p).
  repeat split; try done.
  apply close_to_refl.
Qed.

Lemma total_revenue_is_units_times_price_witness :
  ∃ u0 u p tr,
    cell example_raw "Units Sold" 0 = Some u0 ∧
    u = (if is_nan u0 then nanmedian (floats example_raw "Units Sold") else u0) ∧
    cell example_enriched "Units Sold" 0 = Some u ∧
    cell example_enriched "Unit Price" 0 = Some p ∧
    cell example_enriched "Total Revenue" 0 = Some tr ∧
    tr = fmul u p ∧
    (is_finite tr = true → close_to tolerance tr (fmul u p) = true).
Proof.
  apply (total_revenue_is_units_times_price example_raw example_enriched 0%nat).
  - exact run_step2_example.
  - vm_compute. lia.
Defined.

(** C3, as stated, fails in double arithmetic: for 3 units at 19.99 with
    cost 4.99, Total Profit is 44.99999999999999 (one unit in the last
    place below 45) while Total Revenue - Units Sold * Cost Per Unit is
    45.0. *)
Lemma total_profit_relation_fails :
  ∃ enr u c tr tp,
    run_step2 (frame_of [priced_item]) = Some enr ∧
    cell enr "Units Sold" 0 = Some u ∧
    cell enr "Cost Per Unit" 0 = Some c ∧
    cell enr "Total Revenue" 0 = Some tr ∧
    cell enr "Total Profit" 0 = Some tp ∧
    fsub tr (fmul u c) = of_Z 45 ∧
    tp = S754_finite false 6333186975989759 (-47) ∧
    feqb tp (fsub tr (fmul u c)) = false.
Proof.
  eexists _, _, _, _, _. split; [vm_compute; reflexivity|].
  repeat split; vm_compute; reflexivity.
Qed.

Section ExactArithmetic.

Import Qcanon.

Lemma profit_formula_exact (u p c : Qc) :
  profit_formula u p c = asub (revenue_formula u p) (amul u c).
Proof. unfold profit_formula, revenue_formula. simpl. ring. Qed.

End ExactArithmetic.

(** C3, amended: for every row of the enriched table, Total Revenue is
    Units Sold * Unit Price and Total Profit is
    Units Sold * (Unit Price - Cost Per Unit), both in double arithmetic;
    read in exact (rational) arithmetic these formulas satisfy
    Total Profit = Total Revenue - Units Sold * Cost Per Unit. *)
Theorem total_profit_formula raw enr i :
  run_step2 raw = Some enr →
  (i < nrows enr)%nat →
  (∃ u p c,
     cell enr "Units Sold" i = Some u ∧
     cell enr "Unit Price" i = Some p ∧
     cell enr "Cost Per Unit" i = Some c ∧
     cell enr "Total Revenue" i = Some (revenue_formula u p) ∧
     cell enr "Total Profit" i = Some (profit_formula u p c)) ∧
  (∀ u p c : Qcanon.Qc,
     profit_formula u p c = asub (revenue_formula u p) (amul u c)).
Proof.
  intros Hrun Hi. split.
  - destruct (enriched_row raw enr i Hrun Hi)
      as (u0 & u & p & c & v & _ & _ & Hu & Hp & Hc & _ & Htr & Htp & _).
    by exists u, p, c.
  - apply profit_formula_exact.
Qed.

Lemma total_profit_formula_witness :
  (∃ u p c,
     cell example_enriched "Units Sold" 0 = Some u ∧
     cell example_enriched "Unit Price" 0 = Some p ∧
     cell example_enriched "Cost Per Unit" 0 = Some c ∧
     cell example_enriched "Total Revenue" 0 = Some (revenue_formula u p) ∧
     cell example_enriched "Total Profit" 0 = Some (profit_formula u p c)) ∧
  (∀ u p c : Qcanon.Qc,
     profit_formula u p c = asub (revenue_formula u p) (amul u c)).
Proof.
  apply (total_profit_formula example_raw example_enriched 0%nat).
  - exact run_step2_example.
  - vm_compute. lia.
Defined.

(** C4, as stated, fails: with Units Sold = 10 and Inventory = 0 the
    Inventory Turnover is plus infinity, not NaN. *)
Lemma inventory_turnover_zero_inventory_not_nan :
  ∃ enr v it,
    run_step2 (frame_of [sold_out_item]) = Some enr ∧
    cell enr "Inventory" 0 = Some v ∧
    cell enr "Inventory Turnover" 0 = Some it ∧
    feqb v pos_zero = true ∧
    it = pos_inf ∧ is_nan it = false.
Proof.
  eexists _, _, _. split; [vm_compute; reflexivity|].
  repeat split; vm_compute; reflexivity.
Qed.

(** C4, amended: on every loaded frame lines 26-45 raise no error, and for
    every row Inventory Turnover is Units Sold / Inventory in double
    arithmetic; when Inventory is 0 it is NaN if Units Sold is 0 or NaN
    and plus or minus infinity otherwise. *)
Theorem inventory_turnover_division raw pid pid_text cat us up cpu cr inv :
  loaded raw pid cat us up cpu cr inv →
  as_text pid = Some pid_text →
  ∃ enr,
    run_step2 raw = Some enr ∧
    nrows enr = nrows raw ∧
    ∀ i, (i < nrows enr)%nat →
      ∃ u v it,
        cell enr "Units Sold" i = Some u ∧
        cell enr "Inventory" i = Some v ∧
        cell enr "Inventory Turnover" i = Some it ∧
        it = fdiv u v ∧
        (is_zero v = true → is_nan it = is_zero u || is_nan u) ∧
        (is_zero v = true → is_zero u = false → is_nan u = false →
         is_inf it = true).
Proof.
  intros Hld Htext.
  pose proof (run_step2_loaded _ _ _ _ _ _ _ _ _ Hld Htext) as Hrun.
  eexists. split; [exact Hrun|]. split; [done|].
  intros i Hi.
  destruct (enriched_row _ _ i Hrun Hi)
    as (u0 & u & p & c & v & _ & _ & Hu & _ & _ & Hv & _ & _ & _ & Hit).
  exists u, v, (fdiv u v). repeat split; try done.
  - intros Hz. rewrite fdiv_is_nan. destruct u, v; done.
  - intros Hz Hnz Hn. by apply fdiv_by_zero.
Qed.

Lemma inventory_turnover_division_witness :
  ∃ enr,
    run_step2 (frame_of [sold_out_item]) = Some enr ∧
    nrows enr = nrows (frame_of [sold_out_item]) ∧
    ∀ i, (i < nrows enr)%nat →
      ∃ u v it,
        cell enr "Units Sold" i = Some u ∧
        cell enr "Inventory" i = Some v ∧
        cell enr "Inventory Turnover" i = Some it ∧
        it = fdiv u v ∧
        (is_zero v = true → is_nan it = is_zero u || is_nan u) ∧
        (is_zero v = true → is_zero u = false → is_nan u = false →
         is_inf it = true).
Proof.
  eapply inventory_turnover_division.
  - apply loaded_frame_of.
  - reflexivity.
Defined.

(** ** The median fill (lines 30-32) *)

Lemma run_fill_columns raw us cr :
  columns raw !! "Units Sold" = Some (Float64 us) →
  columns raw !! "Customer Rating" = Some (Float64 cr) →
  length us = nrows raw → length cr = nrows raw →
  run_fill raw =
    Some (with_column "Customer Rating" (Float64 (median_fill cr))
           (with_column "Units Sold" (Float64 (median_fill us)) raw)).
Proof.
  intros Hus Hcr Hlus Hlcr.
  unfold run_fill, bind at 1, alloc. cbv zeta.
  unfold fill_missing_numeric, for_each, median, fillna_inplace.
  mget (Float64 us). mret. mget (Float64 us). mset.
  mget (Float64 cr). mret. mget (Float64 cr). mset. mret.
  unfold ret. by rewrite lookup_insert_eq.
Qed.

Lemma run_fill_inv raw filled :
  run_fill raw = Some filled →
  ∃ us cr,
    columns raw !! "Units Sold" = Some (Float64 us) ∧
    columns raw !! "Customer Rating" = Some (Float64 cr) ∧
    length us = nrows raw ∧ length cr = nrows raw ∧
    filled = with_column "Customer Rating" (Float64 (median_fill cr))
               (with_column "Units Sold" (Float64 (median_fill us)) raw).
Proof.
  unfold run_fill, bind at 1, alloc. cbv zeta.
  unfold fill_missing_numeric, for_each, median, fillna_inplace.
  mget_cases "Units Sold". destruct s as [us| | |]; mnorm; try done.
  mret. mget (Float64 us). mset_cases.
  mget_cases "Customer Rating". destruct s as [cr| | |]; mnorm; try done.
  mret. mget (Float64 cr). mset_cases. mret.
  unfold ret. rewrite lookup_insert_eq. intros [= <-].
  rewrite length_fillna in *.
  by exists us, cr.
Qed.

Lemma nonneg_not_nan x : nonneg x → is_nan x = false.
Proof. by destruct x. Qed.

Lemma half_not_nan x : is_nan x = false → is_nan (fdiv x (of_Z 2)) = false.
Proof. intros H. by apply fdiv_by_finite_nonzero. Qed.

Lemma mask_select_median_fill xs :
  mask_select (notna <$> xs) (median_fill xs) = present xs.
Proof.
  unfold median_fill, mask_select, present.
  generalize (nanmedian xs) as v. intros v.
  induction xs as [|x xs IH]; [done|].
  cbn [fmap list_fmap fillna zip zip_with]. rewrite !filter_cons. cbn [fst].
  destruct (is_nan x) eqn:Hx.
  - rewrite !decide_False by (unfold notna; by rewrite Hx). apply IH.
  - rewrite !decide_True by (unfold notna; by rewrite Hx).
    cbn [fmap list_fmap snd]. f_equal. apply IH.
Qed.

(** All-missing columns: the median is NaN and the fill changes nothing. *)
Lemma present_all_missing xs : Forall (λ x, is_nan x = true) xs → present xs = [].
Proof.
  induction 1 as [|x xs Hx _ IH]; [done|].
  unfold present in *. rewrite filter_cons, decide_False; [done|].
  unfold notna. by rewrite Hx.
Qed.

Lemma fillna_nan xs : fillna nan xs = xs.
Proof.
  unfold fillna. induction xs as [|x xs IH]; [done|].
  cbn. rewrite IH. by destruct x.
Qed.

Lemma median_fill_all_missing xs :
  Forall (λ x, is_nan x = true) xs → median_fill xs = xs.
Proof.
  intros H. unfold median_fill, nanmedian. rewrite present_all_missing by done.
  apply fillna_nan.
Qed.

Lemma floats_with_column_eq c xs df : floats (with_column c (Float64 xs) df) c = xs.
Proof. unfold floats, with_column. cbn [columns]. by rewrite lookup_insert_eq. Qed.

Lemma floats_with_column_ne c c' s df :
  c ≠ c' → floats (with_column c s df) c' = floats df c'.
Proof. intros H. unfold floats, with_column. cbn [columns]. by rewrite lookup_insert_ne. Qed.

(** C10: when a target column [c] of the fill loop is entirely missing,
    the loop raises no error and leaves [c] as it was, every entry
    missing: the median of [c] is NaN, and filling with NaN changes
    nothing. *)
Theorem fill_all_missing_is_noop raw us cr c :
  columns raw !! "Units Sold" = Some (Float64 us) →
  columns raw !! "Customer Rating" = Some (Float64 cr) →
  length us = nrows raw → length cr = nrows raw →
  c = "Units Sold" ∨ c = "Customer Rating" →
  Forall (λ x, is_nan x = true) (floats raw c) →
  ∃ filled,
    run_fill raw = Some filled ∧
    nanmedian (floats raw c) = nan ∧
    floats filled c = floats raw c ∧
    Forall (λ y, is_nan y = true) (floats filled c).
Proof.
  intros Hus Hcr Hlus Hlcr Hc Hall.
  eexists. split; [by apply run_fill_columns|].
  assert (nanmedian (floats raw c) = nan) as Hmed.
  { unfold nanmedian. by rewrite present_all_missing. }
  split; [done|].
  assert (floats (with_column "Customer Rating" (Float64 (median_fill cr))
            (with_column "Units Sold" (Float64 (median_fill us)) raw)) c
          = floats raw c) as ->; [|done].
  destruct Hc as [-> | ->].
  - rewrite floats_with_column_ne, floats_with_column_eq by done.
    rewrite (floats_lookup raw _ us) in * by done.
    by apply median_fill_all_missing.
  - rewrite floats_with_column_eq.
    rewrite (floats_lookup raw _ cr) in * by done.
    by apply median_fill_all_missing.
Qed.

Lemma fill_all_missing_is_noop_witness :
  ∃ filled,
    run_fill unsold_raw = Some filled ∧
    nanmedian (floats unsold_raw "Units Sold") = nan ∧
    floats filled "Units Sold" = floats unsold_raw "Units Sold" ∧
    Forall (λ y, is_nan y = true) (floats filled "Units Sold").
Proof.
  eapply (fill_all_missing_is_noop unsold_raw _ _ "Units Sold").
  - apply (ld_us _ _ _ _ _ _ _ _ (loaded_frame_of _)).
  - apply (ld_cr _ _ _ _ _ _ _ _ (loaded_frame_of _)).
  - reflexivity.
  - reflexivity.
  - left. reflexivity.
  - vm_compute. repeat constructor.
Defined.

(** ** The order of doubles *)

Ltac compare_cases :=
  change (Pos.compare_cont Eq ?a ?b) with (Pos.compare a b);
  match goal with
  | |- context [Z.compare ?a ?b] =>
      destruct (Z.compare_spec a b);
      match goal with
      | |- context [Pos.compare ?c ?d] => destruct (Pos.compare_spec c d)
      | _ => idtac
      end
  end;
  simpl; split; first [done | lia].

Lemma fleb_rank x y :
  is_nan x = false → is_nan y = false →
  fleb x y = true ↔ lex_le (rank x) (rank y).
Proof.
  unfold fleb, SFleb, lex_le.
  destruct x as [sx|sx| |sx mx ex], y as [sy|sy| |sy my ey]; simpl; try done; intros _ _.
  all: try (destruct sx; simpl; split; first [done | lia]).
  all: try (destruct sy; simpl; split; first [done | lia]).
  all: try (destruct sx, sy; simpl; split; first [done | lia]).
  all: destruct sx, sy; simpl; try (split; first [done | lia]); compare_cases.
Qed.

Lemma fle_not_nan x y : fle x y → is_nan x = false ∧ is_nan y = false.
Proof. unfold fle, fleb, SFleb. by destruct x, y. Qed.

Global Instance fle_trans : Transitive fle.
Proof.
  intros x y z Hxy Hyz.
  destruct (fle_not_nan _ _ Hxy) as [Hx Hy], (fle_not_nan _ _ Hyz) as [_ Hz].
  unfold fle in *. rewrite fleb_rank in * by done.
  unfold lex_le in *. lia.
Qed.

Lemma fle_total x y :
  is_nan x = false → is_nan y = false → fleb x y = false → fle y x.
Proof.
  intros Hx Hy Hxy. unfold fle. apply fleb_rank; [done..|].
  assert (¬ lex_le (rank x) (rank y)) as Hn.
  { rewrite <- fleb_rank by done. by rewrite Hxy. }
  unfold lex_le in *. lia.
Qed.

Lemma fle_refl x : is_nan x = false → fle x x.
Proof.
  intros Hx. destruct (fleb x x) eqn:E; [done|]. by apply fle_total.
Qed.

(** ** Sorting kernels *)

Lemma take_at_in_range {A} (idx : list nat) (xs : list A) (d : A) :
  Forall (λ i, (i < length xs)%nat) idx →
  take_at idx xs = (λ i, default d (xs !! i)) <$> idx.
Proof.
  induction 1 as [|i idx Hi _ IH]; [done|].
  unfold take_at in *. cbn. rewrite IH.
  by destruct (lookup_lt_is_Some_2 xs i Hi) as [x ->].
Qed.

Lemma insert_by_Permutation before i js : insert_by before i js ≡ₚ i :: js.
Proof.
  induction js as [|j js IH]; [done|]. simpl.
  destruct (before i j); [done|]. rewrite IH. apply Permutation_swap.
Qed.

Lemma foldr_insert_by_Permutation before xs :
  foldr (insert_by before) [] xs ≡ₚ xs.
Proof.
  induction xs as [|x xs IH]; [done|]. simpl.
  by rewrite insert_by_Permutation, IH.
Qed.

Section InsertionSort.

Variable before : nat → nat → bool.

Variable R : relation nat.

Variable P : nat → Prop.

Context `{!Transitive R}.

Hypothesis before_true : ∀ i j, P i → P j → before i j = true → R i j.

Hypothesis before_false : ∀ i j, P i → P j → before i j = false → R j i.

Lemma insert_by_sorted i js :
  P i → Forall P js → StronglySorted R js →
  StronglySorted R (insert_by before i js).
Proof.
  intros Hi HP Hs. induction Hs as [|j js Hs IH Hj]; simpl.
  - by repeat constructor.
  - apply Forall_cons in HP as [HPj HP].
    destruct (before i j) eqn:Hb.
    + constructor; [by constructor|].
      constructor; [by apply before_true|].
      eapply Forall_impl; [exact Hj|]. intros x Hx.
      transitivity j; [by apply before_true | done].
    + constructor; [by apply IH|].
      rewrite insert_by_Permutation. constructor; [|done].
      by apply before_false.
Qed.

Lemma foldr_insert_by_sorted xs :
  Forall P xs → StronglySorted R (foldr (insert_by before) [] xs).
Proof.
  induction 1 as [|x xs Hx HP IH]; simpl; [constructor|].
  apply insert_by_sorted; [done| |done].
  by rewrite foldr_insert_by_Permutation.
Qed.

End InsertionSort.

Lemma argsort_by_correct (before : float → float → bool) :
  (∀ x y, before x y = true → fle x y) →
  (∀ x y, is_nan x = false → is_nan y = false → before x y = false → fle y x) →
  argsort_correct (argsort_by before).
Proof.
  intros Ht Hf l Hl. unfold argsort_by.
  split; [apply foldr_insert_by_Permutation|].
  set (key := λ i, default nan (l !! i)).
  set (idx := foldr _ _ _).
  assert (idx ≡ₚ seq 0 (length l)) as Hperm by apply foldr_insert_by_Permutation.
  assert (Forall (λ i, (i < length l)%nat) (seq 0 (length l))) as Hrange.
  { apply Forall_forall. intros i Hi. apply elem_of_seq in Hi. lia. }
  rewrite (take_at_in_range _ _ nan) by (by rewrite Hperm).
  apply StronglySorted_Sorted.
  apply (StronglySorted_fmap key (λ i j, fle (key i) (key j)) fle); [done|].
  assert (Transitive (λ i j, fle (key i) (key j))) as Htrans.
  { intros i j k. apply fle_trans. }
  apply (foldr_insert_by_sorted _ _ (λ i, (i < length l)%nat)); [| |done].
  - intros i j _ _. apply Ht.
  - assert (∀ i, (i < length l)%nat → is_nan (key i) = false) as Hkey.
    { intros i Hi. unfold key.
      destruct (lookup_lt_is_Some_2 l i Hi) as [x Hx]. rewrite Hx. simpl.
      rewrite Forall_lookup in Hl. by apply (Hl i). }
    intros i j Hi Hj. apply Hf; by apply Hkey.
Qed.

Lemma stable_argsort_correct : argsort_correct stable_argsort.
Proof.
  apply argsort_by_correct; [done|]. intros x y. apply fle_total.
Qed.

(** ** Positional takes and [nargsort] *)

Lemma take_at_app {A} (i1 i2 : list nat) (xs : list A) :
  take_at (i1 ++ i2) xs = take_at i1 xs ++ take_at i2 xs.
Proof. apply omap_app. Qed.

Lemma take_at_rev {A} (idx : list nat) (xs : list A) :
  take_at (rev idx) xs = rev (take_at idx xs).
Proof.
  induction idx as [|i idx IH]; [done|].
  simpl rev. rewrite take_at_app, IH. unfold take_at. cbn.
  destruct (xs !! i); simpl; [done|]. by rewrite app_nil_r.
Qed.

Lemma take_at_seq {A} (pre xs : list A) :
  take_at (seq (length pre) (length xs)) (pre ++ xs) = xs.
Proof.
  revert pre. induction xs as [|x xs IH]; intros pre; [done|].
  unfold take_at in *. cbn.
  rewrite lookup_app_r, Nat.sub_diag by lia. cbn. f_equal.
  specialize (IH (pre ++ [x])). rewrite length_app in IH. cbn in IH.
  rewrite Nat.add_1_r, <- app_assoc in IH. exact IH.
Qed.

Lemma take_at_Permutation {A} (σ : list nat) (xs : list A) :
  σ ≡ₚ seq 0 (length xs) → take_at σ xs ≡ₚ xs.
Proof.
  intros H. unfold take_at. rewrite H.
  pose proof (take_at_seq [] xs) as E. unfold take_at in E. cbn in E.
  by rewrite E.
Qed.

Lemma take_at_lookup {A} (idx : list nat) (xs : list A) k :
  Forall (λ i, (i < length xs)%nat) idx →
  take_at idx xs !! k = idx !! k ≫= (λ i, xs !! i).
Proof.
  intros H. revert k. induction H as [|i idx Hi _ IH]; intros k; [done|].
  unfold take_at in *. cbn.
  destruct (lookup_lt_is_Some_2 xs i Hi) as [x Hx]. rewrite Hx.
  destruct k as [|k]; cbn; [done|]. apply IH.
Qed.

Lemma take_at_compose {A} (σ idx : list nat) (xs : list A) :
  Forall (λ i, (i < length xs)%nat) idx →
  take_at (take_at σ idx) xs = take_at σ (take_at idx xs).
Proof.
  intros H. induction σ as [|s σ IH]; [done|].
  unfold take_at in *. cbn.
  fold (take_at idx xs). rewrite (take_at_lookup idx xs s H).
  destruct (idx !! s) as [i|]; cbn; [|exact IH].
  destruct (xs !! i); cbn; by rewrite IH.
Qed.

Lemma length_take_at {A} (idx : list nat) (xs : list A) :
  Forall (λ i, (i < length xs)%nat) idx → length (take_at idx xs) = length idx.
Proof.
  induction 1 as [|i idx Hi _ IH]; [done|].
  unfold take_at in *. cbn.
  destruct (lookup_lt_is_Some_2 xs i Hi) as [x ->]. cbn. by rewrite IH.
Qed.

Lemma where_range P s items :
  Forall (λ i, (s ≤ i < s + length items)%nat) (where_ P s items).
Proof.
  revert s. induction items as [|x items IH]; intros s; [constructor|].
  simpl. specialize (IH (S s)).
  assert (Forall (λ i, (s ≤ i < s + S (length items))%nat) (where_ P (S s) items)).
  { eapply Forall_impl; [exact IH|]. simpl. lia. }
  destruct (P x); [constructor; [lia|done]|done].
Qed.

Lemma take_at_where P (pre items : list float) :
  take_at (where_ P (length pre) items) (pre ++ items) =
  filter (λ x, P x = true) items.
Proof.
  revert pre. induction items as [|x items IH]; intros pre; [done|].
  specialize (IH (pre ++ [x])). rewrite length_app in IH. cbn in IH.
  rewrite Nat.add_1_r, <- app_assoc in IH. cbn in IH.
  simpl. rewrite filter_cons. destruct (P x) eqn:HP.
  - rewrite decide_True by done. unfold take_at in *. cbn.
    rewrite lookup_app_r, Nat.sub_diag by lia. cbn. by rewrite IH.
  - rewrite decide_False by done. exact IH.
Qed.

Lemma where_partition s items :
  where_ notna s items ++ where_ is_nan s items ≡ₚ seq s (length items).
Proof.
  revert s. induction items as [|x items IH]; intros s; [done|].
  simpl. unfold notna at 1. destruct (is_nan x); simpl.
  - rewrite <- Permutation_middle. by rewrite IH.
  - by rewrite IH.
Qed.

Section Nargsort.

Variable σ : list float → list nat.

Hypothesis σ_correct : argsort_correct σ.

Lemma present_not_nan items : Forall (λ x, is_nan x = false) (present items).
Proof.
  apply Forall_forall. intros x [Hx _]%list_elem_of_filter.
  unfold notna in Hx. by destruct (is_nan x).
Qed.

Lemma sort_input_not_nan items asc :
  Forall (λ x, is_nan x = false) (sort_input items asc).
Proof.
  unfold sort_input. destruct asc; [apply present_not_nan|].
  apply Forall_rev, present_not_nan.
Qed.

Lemma nargsort_Permutation items asc :
  nargsort σ items asc ≡ₚ seq 0 (length items).
Proof.
  unfold nargsort.
  destruct (σ_correct _ (sort_input_not_nan items asc)) as [Hperm _].
  pose proof (take_at_where notna [] items) as Hvals. cbn in Hvals.
  pose proof (where_range notna 0 items) as Hrange.
  assert (length (where_ notna 0 items) = length (present items)) as Hlen.
  { unfold present. rewrite <- Hvals. symmetry. apply length_take_at.
    eapply Forall_impl; [exact Hrange|]. simpl. lia. }
  rewrite <- (where_partition 0 items). apply Permutation_app_tail.
  unfold sort_input in Hperm. destruct asc.
  - apply take_at_Permutation. by rewrite Hlen.
  - rewrite <- Permutation_rev.
    rewrite take_at_Permutation.
    + by rewrite <- Permutation_rev.
    + by rewrite !length_rev, Hlen in *.
Qed.

Lemma nargsort_keys items asc :
  let sorted := take_at (σ (sort_input items asc)) (sort_input items asc) in
  take_at (nargsort σ items asc) items =
    (if asc then sorted else rev sorted) ++ filter (λ x, is_nan x = true) items.
Proof.
  cbv zeta. unfold nargsort, sort_input.
  pose proof (take_at_where notna [] items) as Hvals. cbn in Hvals.
  pose proof (take_at_where is_nan [] items) as Hnans. cbn in Hnans.
  assert (Forall (λ i, (i < length items)%nat) (where_ notna 0 items)) as Hrange.
  { eapply Forall_impl; [apply where_range|]. simpl. lia. }
  rewrite take_at_app, Hnans. f_equal.
  destruct asc.
  - by rewrite take_at_compose, Hvals.
  - rewrite take_at_rev, take_at_compose, take_at_rev, Hvals; [done|].
    by apply Forall_rev.
Qed.

Lemma nargsort_sorted items asc :
  StronglySorted fle (take_at (σ (sort_input items asc)) (sort_input items asc)).
Proof.
  apply Sorted_StronglySorted; [apply _|].
  apply σ_correct, sort_input_not_nan.
Qed.

End Nargsort.

(** ** Descending order with the NaNs last *)

Lemma StronglySorted_lookup {A} (R : relation A) l i j x y :
  StronglySorted R l → (i < j)%nat → l !! i = Some x → l !! j = Some y → R x y.
Proof.
  intros Hs. revert i j. induction Hs as [|a l Hs IH Ha]; intros i j Hij Hi Hj.
  - done.
  - destruct j as [|j]; [lia|]. cbn in Hj. destruct i as [|i]; cbn in Hi.
    + injection Hi as <-. rewrite Forall_forall in Ha.
      apply Ha. by eapply list_elem_of_lookup_2.
    + apply (IH i j); [lia|done..].
Qed.

Lemma StronglySorted_rev {A} (R : relation A) l :
  StronglySorted R l → StronglySorted (flip R) (rev l).
Proof.
  induction 1 as [|a l Hs IH Ha]; [constructor|].
  simpl. apply StronglySorted_app_2; [|done|by repeat constructor].
  intros x1 x2 Hx1 ->%list_elem_of_singleton. unfold flip.
  rewrite Forall_forall in Ha. apply Ha.
  by rewrite (Permutation_rev l).
Qed.

Lemma desc_nan_last_app vs ns :
  StronglySorted (flip fle) vs →
  Forall (λ x, is_nan x = false) vs →
  Forall (λ x, is_nan x = true) ns →
  desc_nan_last (vs ++ ns).
Proof.
  intros Hs Hvs Hns i j x y Hij Hi Hj.
  apply lookup_app_Some in Hj as [Hj | [Hlen Hj]].
  - right. assert (vs !! i = Some x) as Hi'.
    { apply lookup_lt_Some in Hj. by rewrite lookup_app_l in Hi by lia. }
    split.
    + rewrite Forall_lookup in Hvs. by apply (Hvs i).
    + by apply (StronglySorted_lookup (flip fle) vs i j x y).
  - left. rewrite Forall_lookup in Hns. by apply (Hns _ _ Hj).
Qed.

Lemma nargsort_desc_nan_last σ items :
  argsort_correct σ →
  desc_nan_last (take_at (nargsort σ items false) items).
Proof.
  intros Hσ. rewrite (nargsort_keys σ items false). cbv zeta.
  pose proof (nargsort_sorted σ Hσ items false) as Hs.
  destruct (Hσ _ (sort_input_not_nan items false)) as [Hperm _].
  apply desc_nan_last_app.
  - by apply StronglySorted_rev.
  - apply Forall_rev.
    rewrite (take_at_Permutation _ _ Hperm).
    apply sort_input_not_nan.
  - apply Forall_forall. by intros x [Hx _]%list_elem_of_filter.
Qed.


(** ** The median fill on any numbers (lines 30-32) *)

(** Merge sort sorts whenever the order is total on the elements it is
    given, as [fle] is on numbers that are not NaN. *)
Section MergeSortOn.

Context {A : Type} (R : relation A) `{∀ x y, Decision (R x y)}.

Variable P : A → Prop.

Hypothesis total_on : ∀ x y, P x → P y → ¬ R x y → R y x.

Lemma Sorted_list_merge_on l1 l2 :
  Forall P l1 → Forall P l2 →
  Sorted R l1 → Sorted R l2 → Sorted R (list_merge R l1 l2).
Proof.
  intros HP1 HP2 Hl1. revert HP1 l2 HP2.
  induction Hl1 as [|x1 l1 Hl1 IH1 Hd1]; intros HP1 l2 HP2 Hl2.
  { by rewrite list_merge_nil_l. }
  apply Forall_cons in HP1 as [Hx1 HP1].
  induction Hl2 as [|x2 l2 Hl2 IH2 Hd2].
  { rewrite list_merge_nil_r. by constructor. }
  apply Forall_cons in HP2 as [Hx2 HP2].
  rewrite list_merge_cons. destruct (decide (R x1 x2)) as [Hle|Hnle].
  - constructor.
    + apply IH1; [done|by constructor|by constructor].
    + apply HdRel_list_merge; [done|by constructor].
  - apply total_on in Hnle; [|done..]. constructor.
    + by apply IH2.
    + apply HdRel_list_merge; [by constructor|done].
Qed.

Lemma Forall_list_merge l1 l2 :
  Forall P l1 → Forall P l2 → Forall P (list_merge R l1 l2).
Proof.
  intros H1 H2. rewrite merge_Permutation. by apply Forall_app.
Qed.

Local Notation "'stack_on'" :=
  (Forall (λ o : option (list A),
             match o with
             | Some l => Sorted R l ∧ Forall P l
             | None => True
             end)).

Lemma merge_list_to_stack_on st l :
  stack_on st → Sorted R l → Forall P l →
  stack_on (merge_list_to_stack R st l).
Proof.
  intros Hst. revert l. induction Hst as [|[l'|] st Hl' Hst IH]; intros l Hl HP; simpl.
  - by repeat constructor.
  - destruct Hl' as [Hs' HP']. constructor; [done|].
    apply IH; [by apply Sorted_list_merge_on|by apply Forall_list_merge].
  - by constructor.
Qed.

Lemma merge_stack_on st :
  stack_on st → Sorted R (merge_stack R st) ∧ Forall P (merge_stack R st).
Proof.
  induction 1 as [|[l|] st Hl Hst [IH1 IH2]]; simpl.
  - by split; constructor.
  - destruct Hl as [Hs HP]. split.
    + by apply Sorted_list_merge_on.
    + by apply Forall_list_merge.
  - done.
Qed.

Lemma merge_sort_aux_on st l :
  stack_on st → Forall P l → Sorted R (merge_sort_aux R st l).
Proof.
  intros Hst HP. revert st Hst. induction HP as [|x l Hx HP IH]; intros st Hst; simpl.
  - by apply merge_stack_on.
  - apply IH, merge_list_to_stack_on; [done| |by constructor].
    by repeat constructor.
Qed.

Lemma Sorted_merge_sort_on l : Forall P l → Sorted R (merge_sort R l).
Proof. intros HP. apply merge_sort_aux_on; [constructor|done]. Qed.

End MergeSortOn.

Lemma merge_sort_not_nan vs :
  Forall (λ x, is_nan x = false) vs →
  StronglySorted fle (merge_sort fle vs).
Proof.
  intros Hvs. apply Sorted_StronglySorted; [apply _|].
  apply (Sorted_merge_sort_on fle (λ x, is_nan x = false)); [|done].
  intros x y Hx Hy Hnle. apply fle_total; [done..|].
  unfold fle in Hnle. by destruct (fleb x y).
Qed.

(** The median of numbers without NaN splits them into a lower and an
    upper half of equal size: it is the middle one, or the mean of the two
    middle ones. *)
Lemma median_of_middle vs :
  Forall (λ x, is_nan x = false) vs →
  vs ≠ [] →
  ∃ lo hi,
    length lo = length hi ∧
    ((vs ≡ₚ lo ++ median_of vs :: hi ∧
      Forall (λ y, fle y (median_of vs)) lo ∧
      Forall (fle (median_of vs)) hi) ∨
     (∃ a b,
        vs ≡ₚ lo ++ a :: b :: hi ∧
        fle a b ∧
        Forall (λ y, fle y a) lo ∧
        Forall (fle b) hi ∧
        median_of vs = fdiv (fadd a b) (of_Z 2))).
Proof.
  intros Hvs Hne. unfold median_of.
  pose proof (merge_sort_not_nan vs Hvs) as Hs.
  pose proof (merge_sort_Permutation fle vs) as Hperm.
  set (ws := merge_sort fle vs) in *.
  assert (length ws ≠ 0)%nat as Hlen.
  { rewrite Hperm. by destruct vs. }
  destruct (length ws) as [|n'] eqn:Hn; [done|]. clear Hlen.
  set (n := S n') in *. set (k := (n / 2)%nat).
  pose proof (Nat.div_mod_eq n 2) as Hdiv.
  pose proof (Nat.mod_upper_bound n 2) as Hmod.
  destruct (Nat.odd n) eqn:Hodd.
  - assert (n = 2 * k + 1)%nat as Hk.
    { apply Nat.odd_spec in Hodd as [m Hm]. subst k. lia. }
    destruct (lookup_lt_is_Some_2 ws k) as [m Hm]; [lia|].
    rewrite Hm. cbn [default].
    exists (take k ws), (drop (S k) ws).
    pose proof (take_drop_middle ws k m Hm) as Hsplit.
    split; [rewrite length_take, length_drop; lia|].
    left. rewrite <- Hsplit in Hs.
    apply StronglySorted_app in Hs as (Hlo & _ & Hhi).
    apply StronglySorted_cons in Hhi as [Hhi _].
    split; [by rewrite <- Hperm, <- Hsplit at 1|].
    split; [|done].
    apply Forall_forall. intros y Hy. apply (Hlo y m Hy). left.
  - assert (n = 2 * k ∧ 0 < k)%nat as [Hk Hpos].
    { assert (Nat.even n = true) as Heven by (by rewrite <- Nat.negb_odd, Hodd).
      apply Nat.even_spec in Heven as [m Hm]. subst k. unfold n in *. lia. }
    destruct (lookup_lt_is_Some_2 ws (k - 1)) as [a Ha]; [lia|].
    destruct (lookup_lt_is_Some_2 ws k) as [b Hb]; [lia|].
    rewrite Ha, Hb. cbn [default].
    exists (take (k - 1) ws), (drop (S k) ws).
    pose proof (take_drop_middle ws (k - 1) a Ha) as Hsplit.
    assert (drop (S (k - 1)) ws = b :: drop (S k) ws) as Hdrop.
    { replace (S (k - 1)) with k by lia. by apply drop_S. }
    rewrite Hdrop in Hsplit.
    split; [rewrite length_take, length_drop; lia|].
    right. exists a, b. rewrite <- Hsplit in Hs.
    apply StronglySorted_app in Hs as (Hlo & _ & Hhi).
    apply StronglySorted_cons in Hhi as [Hab Hhi].
    apply StronglySorted_cons in Hhi as [Hhi _].
    apply Forall_cons in Hab as [Hab _].
    split; [by rewrite <- Hperm, <- Hsplit at 1|].
    split; [done|]. split; [|done].
    apply Forall_forall. intros y Hy. apply (Hlo y a Hy). left.
Qed.

Lemma fle_neg_inf y : fle y neg_inf → y = neg_inf.
Proof. by destruct y as [[]|[]| |[] m e]. Qed.

Lemma fle_pos_inf y : fle pos_inf y → y = pos_inf.
Proof. by destruct y as [[]|[]| |[] m e]. Qed.

(** A sum of two numbers is NaN only for infinities of opposite sign. *)
Lemma fadd_is_nan a b :
  fle a b → is_nan (fadd a b) = true → a = neg_inf ∧ b = pos_inf.
Proof.
  destruct a as [sa|[]| |sa ma ea], b as [sb|[]| |sb mb eb]; try done.
  - by destruct sa, sb.
  - intros _ H. unfold fadd, SFadd in H. by rewrite binary_normalize_not_nan in H.
Qed.

(** The median of the present entries is NaN only when there is none, or
    when they are minus infinity and plus infinity in equal numbers. *)
Lemma nanmedian_is_nan xs :
  is_nan (nanmedian xs) = true →
  ∃ k, present xs ≡ₚ replicate k neg_inf ++ replicate k pos_inf.
Proof.
  intros Hnan. unfold nanmedian in *.
  destruct (present xs) as [|v vs] eqn:Hp; [by exists 0%nat|].
  rewrite <- Hp in *.
  destruct (median_of_middle (present xs)) as (lo & hi & Hlen & Hcase);
    [apply present_not_nan|by rewrite Hp|].
  destruct Hcase as [(Hperm & _ & _)|(a & b & Hperm & Hab & Hlo & Hhi & Hm)].
  - exfalso. pose proof (present_not_nan xs) as Hall.
    rewrite Hperm in Hall. apply Forall_app in Hall as [_ Hall].
    apply Forall_cons in Hall as [Hall _]. congruence.
  - rewrite Hm in Hnan.
    assert (is_nan (fadd a b) = true) as Hsum.
    { destruct (is_nan (fadd a b)) eqn:E; [done|].
      by rewrite half_not_nan in Hnan. }
    destruct (fadd_is_nan a b Hab Hsum) as [-> ->].
    exists (S (length lo)).
    assert (lo = replicate (length lo) neg_inf) as Elo.
    { clear -Hlo. induction Hlo as [|y lo Hy _ IH]; [done|].
      cbn. by rewrite (fle_neg_inf y Hy), <- IH. }
    assert (hi = replicate (length hi) pos_inf) as Ehi.
    { clear -Hhi. induction Hhi as [|y hi Hy _ IH]; [done|].
      cbn. by rewrite (fle_pos_inf y Hy), <- IH. }
    rewrite Hperm, Elo, Ehi, !length_replicate, Hlen. cbn.
    by rewrite <- Permutation_middle.
Qed.

Lemma median_fill_total xs :
  is_nan (nanmedian xs) = false →
  length (median_fill xs) = length xs ∧
  Forall (λ y, is_nan y = false) (median_fill xs) ∧
  (∀ i x, xs !! i = Some x → is_nan x = false → median_fill xs !! i = Some x) ∧
  (∀ i x, xs !! i = Some x → is_nan x = true →
     median_fill xs !! i = Some (median_of (present xs))) ∧
  median_of (mask_select (notna <$> xs) (median_fill xs)) = median_of (present xs).
Proof.
  intros Hmed.
  split; [apply length_median_fill|]. split; [|split; [|split]].
  - apply Forall_forall. intros y Hy.
    apply list_elem_of_fmap in Hy as (x & -> & _).
    by destruct (is_nan x) eqn:Hx.
  - intros i x Hi Hx. by rewrite (lookup_median_fill _ _ _ Hi), Hx.
  - intros i x Hi Hx. by rewrite (lookup_median_fill _ _ _ Hi), Hx.
  - by rewrite mask_select_median_fill.
Qed.

Lemma present_nonempty xs :
  (∃ x, x ∈ xs ∧ is_nan x = false) → present xs ≠ [].
Proof.
  intros (x & Hx & Hnn) Hnil.
  assert (x ∈ present xs) as Hin.
  { apply list_elem_of_filter. split; [|done]. unfold notna. by rewrite Hnn. }
  rewrite Hnil in Hin. by apply elem_of_nil in Hin.
Qed.

Lemma median_fill_column xs :
  (∃ x, x ∈ xs ∧ is_nan x = false) →
  (∀ k, ¬ present xs ≡ₚ replicate (S k) neg_inf ++ replicate (S k) pos_inf) →
  length (median_fill xs) = length xs ∧
  Forall (λ y, is_nan y = false) (median_fill xs) ∧
  (∀ i x, xs !! i = Some x → is_nan x = false → median_fill xs !! i = Some x) ∧
  (∀ i x, xs !! i = Some x → is_nan x = true →
     median_fill xs !! i = Some (median_of (present xs))) ∧
  median_of (mask_select (notna <$> xs) (median_fill xs)) = median_of (present xs) ∧
  ∃ lo hi,
    length lo = length hi ∧
    ((present xs ≡ₚ lo ++ median_of (present xs) :: hi ∧
      Forall (λ y, fle y (median_of (present xs))) lo ∧
      Forall (fle (median_of (present xs))) hi) ∨
     (∃ a b,
        present xs ≡ₚ lo ++ a :: b :: hi ∧
        fle a b ∧
        Forall (λ y, fle y a) lo ∧
        Forall (fle b) hi ∧
        median_of (present xs) = fdiv (fadd a b) (of_Z 2))).
Proof.
  intros Hex Hinf.
  pose proof (present_nonempty xs Hex) as Hne.
  assert (is_nan (nanmedian xs) = false) as Hmed.
  { destruct (is_nan (nanmedian xs)) eqn:E; [|done]. exfalso.
    destruct (nanmedian_is_nan xs E) as [[|k] Hk].
    - apply Permutation_nil_r in Hk. done.
    - by apply (Hinf k). }
  destruct (median_fill_total xs Hmed) as (H1 & H2 & H3 & H4 & H5).
  do 5 (split; [done|]).
  apply median_of_middle; [apply present_not_nan|done].
Qed.

(** C7, as stated, fails: a column can have an entry that is not missing
    and still keep its gaps.  The median of minus infinity and plus
    infinity is their mean, which is NaN, and filling with NaN fills
    nothing. *)
Lemma median_fill_opposite_infinities :
  ∃ filled,
    run_fill unbounded_raw = Some filled ∧
    floats unbounded_raw "Units Sold" = [neg_inf; pos_inf; nan] ∧
    is_nan neg_inf = false ∧
    nanmedian [neg_inf; pos_inf; nan] = nan ∧
    floats filled "Units Sold" = [neg_inf; pos_inf; nan] ∧
    is_nan nan = true.
Proof.
  eexists. split; [vm_compute; reflexivity|].
  repeat split; vm_compute; reflexivity.
Qed.

(** C7, amended: on a table whose target column [c] (Units Sold or
    Customer Rating) has an entry that is not missing, and whose present
    entries are not minus infinity and plus infinity in equal numbers,
    the fill loop leaves no missing entry in [c], keeps every entry that
    was present, puts the median of the present entries in place of every
    missing one, and the median recomputed over the rows that were
    present is that same median.  That median splits the present entries
    into a lower and an upper half of equal size: it is the middle entry,
    or (a + b) / 2 in double arithmetic for the two middle entries. *)
Theorem median_fill_complete raw filled c :
  run_fill raw = Some filled →
  c = "Units Sold" ∨ c = "Customer Rating" →
  (∃ x, x ∈ floats raw c ∧ is_nan x = false) →
  (∀ k, ¬ present (floats raw c) ≡ₚ
          replicate (S k) neg_inf ++ replicate (S k) pos_inf) →
  length (floats filled c) = length (floats raw c) ∧
  Forall (λ y, is_nan y = false) (floats filled c) ∧
  (∀ i x, floats raw c !! i = Some x → is_nan x = false →
     floats filled c !! i = Some x) ∧
  (∀ i x, floats raw c !! i = Some x → is_nan x = true →
     floats filled c !! i = Some (median_of (present (floats raw c)))) ∧
  median_of (mask_select (notna <$> floats raw c) (floats filled c)) =
    median_of (present (floats raw c)) ∧
  ∃ lo hi,
    length lo = length hi ∧
    ((present (floats raw c) ≡ₚ lo ++ median_of (present (floats raw c)) :: hi ∧
      Forall (λ y, fle y (median_of (present (floats raw c)))) lo ∧
      Forall (fle (median_of (present (floats raw c)))) hi) ∨
     (∃ a b,
        present (floats raw c) ≡ₚ lo ++ a :: b :: hi ∧
        fle a b ∧
        Forall (λ y, fle y a) lo ∧
        Forall (fle b) hi ∧
        median_of (present (floats raw c)) = fdiv (fadd a b) (of_Z 2))).
Proof.
  intros Hrun Hc Hex Hinf.
  apply run_fill_inv in Hrun as (us & cr & Hus & Hcr & _ & _ & ->).
  destruct Hc as [-> | ->].
  - rewrite floats_with_column_ne, floats_with_column_eq by done.
    rewrite (floats_lookup raw _ us) in * by done.
    by apply median_fill_column.
  - rewrite floats_with_column_eq.
    rewrite (floats_lookup raw _ cr) in * by done.
    by apply median_fill_column.
Qed.

Lemma median_fill_complete_witness :
  length (floats returns_filled "Units Sold") =
    length (floats returns_raw "Units Sold") ∧
  Forall (λ y, is_nan y = false) (floats returns_filled "Units Sold") ∧
  (∀ i x, floats returns_raw "Units Sold" !! i = Some x → is_nan x = false →
     floats returns_filled "Units Sold" !! i = Some x) ∧
  (∀ i x, floats returns_raw "Units Sold" !! i = Some x → is_nan x = true →
     floats returns_filled "Units Sold" !! i =
       Some (median_of (present (floats returns_raw "Units Sold")))) ∧
  median_of (mask_select (notna <$> floats returns_raw "Units Sold")
               (floats returns_filled "Units Sold")) =
    median_of (present (floats returns_raw "Units Sold")) ∧
  ∃ lo hi,
    length lo = length hi ∧
    ((present (floats returns_raw "Units Sold") ≡ₚ
        lo ++ median_of (present (floats returns_raw "Units Sold")) :: hi ∧
      Forall (λ y, fle y (median_of (present (floats returns_raw "Units Sold")))) lo ∧
      Forall (fle (median_of (present (floats returns_raw "Units Sold")))) hi) ∨
     (∃ a b,
        present (floats returns_raw "Units Sold") ≡ₚ lo ++ a :: b :: hi ∧
        fle a b ∧
        Forall (λ y, fle y a) lo ∧
        Forall (fle b) hi ∧
        median_of (present (floats returns_raw "Units Sold")) =
          fdiv (fadd a b) (of_Z 2))).
Proof.
  apply (median_fill_complete returns_raw returns_filled "Units Sold").
  - vm_compute. reflexivity.
  - left. reflexivity.
  - exists (of_Z 2). split; [|reflexivity].
    vm_compute. do 3 apply list_elem_of_further. apply list_elem_of_here.
  - intros k Hk. apply Permutation_length in Hk.
    rewrite length_app, !length_replicate in Hk.
    assert (length (present (floats returns_raw "Units Sold")) = 3%nat) as Hlen
      by (vm_compute; reflexivity).
    lia.
Defined.

Example returns_filled_units :
  floats returns_filled "Units Sold" = [of_Z (-3); pos_inf; of_Z 2; of_Z 2] ∧
  floats returns_filled "Customer Rating" = [of_Z 4; of_Z 4; of_Z 4; of_Z 3].
Proof. vm_compute. done. Qed.

(** ** Running Step 3 *)

Lemma fresh_lookup (h : gmap loc DataFrame) : h !! fresh (dom h) = None.
Proof. apply not_elem_of_dom, is_fresh. Qed.

Lemma alloc_old (h : gmap loc DataFrame) l df df' :
  h !! l = Some df → <[fresh (dom h) := df']> h !! l = Some df.
Proof.
  intros H. rewrite lookup_insert_ne; [done|].
  intros <-. by rewrite fresh_lookup in H.
Qed.

Lemma alloc_allocates df h : allocates (alloc df) h df.
Proof.
  exists (fresh (dom h)), (<[fresh (dom h) := df]> h).
  split; [done|]. split; [apply lookup_insert_eq|].
  intros l0 df0. apply alloc_old.
Qed.

Lemma bind_allocates (m : M loc) (k : loc → M loc) h df1 df2 :
  allocates m h df1 →
  (∀ l h', h' !! l = Some df1 → allocates (k l) h' df2) →
  allocates (bind m k) h df2.
Proof.
  intros (l & h' & Hm & Hl & Hold) Hk.
  destruct (Hk l h' Hl) as (l2 & h2 & Hk2 & Hl2 & Hold2).
  exists l2, h2. unfold bind. rewrite Hm. eauto.
Qed.

Lemma bind_getitem_allocates (k : series → M loc) h l df c s df' :
  h !! l = Some df → columns df !! c = Some s →
  allocates (k s) h df' → allocates (bind (getitem l c) k) h df'.
Proof.
  intros Hl Hc (l' & h' & Hk & Hrest). exists l', h'. split; [|done].
  unfold bind, getitem, load, bind, ret. cbv beta.
  rewrite Hl. cbv beta iota. by rewrite Hc.
Qed.

Lemma bind_load_allocates (k : DataFrame → M loc) h l df df' :
  h !! l = Some df →
  allocates (k df) h df' → allocates (bind (load l) k) h df'.
Proof.
  intros Hl (l' & h' & Hk & Hrest). exists l', h'. split; [|done].
  unfold bind, load. by rewrite Hl.
Qed.

Section Step3Run.

Variable σ : list float → list nat.

Variables gs gm : list float → float.

Lemma sort_values_allocates h l df c xs asc :
  h !! l = Some df →
  columns df !! c = Some (Float64 xs) →
  allocates (sort_values σ l c asc) h (take_rows (nargsort σ xs asc) df).
Proof.
  intros Hl Hc. unfold sort_values.
  eapply bind_load_allocates; [done|]. rewrite Hc. apply alloc_allocates.
Qed.

Lemma head_allocates h l df n :
  h !! l = Some df → allocates (head l n) h (head_frame n df).
Proof.
  intros Hl. unfold head.
  eapply bind_load_allocates; [done|]. apply alloc_allocates.
Qed.

Lemma round_frame_allocates h l df :
  h !! l = Some df → allocates (round_frame l) h (rounded df).
Proof.
  intros Hl. unfold round_frame.
  eapply bind_load_allocates; [done|]. apply alloc_allocates.
Qed.

Lemma groupby_agg_allocates h l df keys trs tps crs :
  h !! l = Some df →
  columns df !! "Category" = Some (Object keys) →
  columns df !! "Total Revenue" = Some (Float64 trs) →
  columns df !! "Total Profit" = Some (Float64 tps) →
  columns df !! "Customer Rating" = Some (Float64 crs) →
  allocates (groupby_agg gs gm l) h (grouped gs gm keys trs tps crs).
Proof.
  intros Hl Hk Htr Htp Hcr. unfold groupby_agg.
  repeat (eapply bind_getitem_allocates; [done..|]).
  apply alloc_allocates.
Qed.

Lemma top_revenue_allocates h l df trs :
  h !! l = Some df →
  columns df !! "Total Revenue" = Some (Float64 trs) →
  allocates (top_revenue σ l) h
    (head_frame 10 (take_rows (nargsort σ trs false) df)).
Proof.
  intros Hl Hc. unfold top_revenue.
  eapply bind_allocates; [by apply sort_values_allocates|].
  intros l' h' Hl'. by apply head_allocates.
Qed.

Lemma bottom_profit_allocates h l df tps :
  h !! l = Some df →
  columns df !! "Total Profit" = Some (Float64 tps) →
  allocates (bottom_profit σ l) h
    (head_frame 10 (take_rows (nargsort σ tps true) df)).
Proof.
  intros Hl Hc. unfold bottom_profit.
  eapply bind_allocates; [by apply sort_values_allocates|].
  intros l' h' Hl'. by apply head_allocates.
Qed.

Lemma category_performance_allocates h l df keys trs tps crs :
  h !! l = Some df →
  columns df !! "Category" = Some (Object keys) →
  columns df !! "Total Revenue" = Some (Float64 trs) →
  columns df !! "Total Profit" = Some (Float64 tps) →
  columns df !! "Customer Rating" = Some (Float64 crs) →
  allocates (category_performance σ gs gm l) h
    (rounded (take_rows (nargsort σ (revenue_sums gs keys trs) false)
                (grouped gs gm keys trs tps crs))).
Proof.
  intros Hl Hk Htr Htp Hcr. unfold category_performance.
  eapply bind_allocates; [by eapply groupby_agg_allocates|].
  intros l1 h1 Hl1.
  eapply bind_allocates.
  { eapply sort_values_allocates; [exact Hl1|].
    unfold grouped, list_to_map. cbn [columns foldr uncurry fst snd].
    apply lookup_insert_eq. }
  intros l2 h2 Hl2. by apply round_frame_allocates.
Qed.

End Step3Run.

(** ** The whole script *)

Section ScriptRun.

Variable σ : list float → list nat.

Variables gs gm : list float → float.

Lemma enriched_columns raw pid_text cat us up cpu cr inv :
  let enr := enriched raw pid_text cat us up cpu cr inv in
  columns enr !! "Category" = Some (Object (fillna_str "Unknown" cat)) ∧
  columns enr !! "Total Revenue" = Some (Float64 (total_revenue us up)) ∧
  columns enr !! "Total Profit" = Some (Float64 (total_profit us up cpu)) ∧
  columns enr !! "Customer Rating" = Some (Float64 (median_fill cr)) ∧
  columns enr !! "Product ID" = Some (StringDtype pid_text).
Proof. cbv zeta. unfold enriched. repeat split; col_lookup. Qed.

(** When Step 2 runs through, so does the rest, and the five frames are
    these. *)
Lemma run_script_frames parsed enr :
  run_step2 parsed = Some enr →
  ∃ cats trs tps crs,
    columns enr !! "Category" = Some (Object cats) ∧
    columns enr !! "Total Revenue" = Some (Float64 trs) ∧
    columns enr !! "Total Profit" = Some (Float64 tps) ∧
    columns enr !! "Customer Rating" = Some (Float64 crs) ∧
    length trs = nrows enr ∧
    (∀ cat0, columns parsed !! "Category" = Some (Object cat0) →
       cats = fillna_str "Unknown" cat0) ∧
    run_script σ gs gm parsed =
      Some (mkReport parsed enr
              (head_frame 10 (take_rows (nargsort σ trs false) enr))
              (head_frame 10 (take_rows (nargsort σ tps true) enr))
              (rounded (take_rows (nargsort σ (revenue_sums gs cats trs) false)
                          (grouped gs gm cats trs tps crs)))).
Proof.
  intros Hrun.
  destruct (run_step2_inv _ _ Hrun)
    as (pid & pid_text & cat & us & up & cpu & cr & inv & Hld & Htext & ->).
  destruct (enriched_columns parsed pid_text cat us up cpu cr inv)
    as (Hcat & Htr & Htp & Hcr & _).
  eexists _, _, _, _. do 4 (split; [eassumption|]).
  split; [destruct Hld; unfold enriched; col_len|].
  split; [intros cat0 Hcat0; destruct Hld; congruence|].
  set (enr := enriched _ _ _ _ _ _ _ _) in *.
  unfold run_script, script. unfold bind at 1, alloc at 1. cbv zeta.
  set (l0 := fresh (dom (∅ : gmap loc DataFrame))).
  set (h0 := <[l0 := parsed]> (∅ : gmap loc DataFrame)).
  assert (h0 !! l0 = Some parsed) as Hl0 by apply lookup_insert_eq.
  unfold bind at 1.
  rewrite (step2_run h0 l0 parsed pid pid_text cat us up cpu cr inv Hl0 Hld Htext).
  fold enr. set (l1 := fresh (dom h0)). set (h1 := <[l1 := enr]> h0).
  assert (h1 !! l1 = Some enr) as Hl1 by apply lookup_insert_eq.
  assert (h1 !! l0 = Some parsed) as Hl0' by (by apply alloc_old).
  destruct (top_revenue_allocates σ h1 l1 enr _ Hl1 Htr)
    as (l2 & h2 & Hrun2 & Hl2 & Hold2).
  destruct (bottom_profit_allocates σ h2 l1 enr _ (Hold2 _ _ Hl1) Htp)
    as (l3 & h3 & Hrun3 & Hl3 & Hold3).
  destruct (category_performance_allocates σ gs gm h3 l1 enr _ _ _ _
              (Hold3 _ _ (Hold2 _ _ Hl1)) Hcat Htr Htp Hcr)
    as (l4 & h4 & Hrun4 & Hl4 & Hold4).
  unfold bind at 1. rewrite Hrun2.
  unfold bind at 1. rewrite Hrun3.
  unfold bind at 1. rewrite Hrun4.
  unfold ret.
  rewrite (Hold4 _ _ (Hold3 _ _ (Hold2 _ _ Hl0'))).
  rewrite (Hold4 _ _ (Hold3 _ _ (Hold2 _ _ Hl1))).
  rewrite (Hold4 _ _ (Hold3 _ _ Hl2)).
  rewrite (Hold4 _ _ Hl3), Hl4.
  reflexivity.
Qed.

Lemma run_script_inv parsed rep :
  run_script σ gs gm parsed = Some rep →
  run_step2 parsed = Some (final_df rep).
Proof.
  intros Hrep.
  destruct (run_step2 parsed) as [enr|] eqn:Hrun.
  - destruct (run_script_frames parsed enr Hrun)
      as (cats & trs & tps & crs & _ & _ & _ & _ & _ & _ & Heq).
    rewrite Heq in Hrep. by injection Hrep as <-.
  - exfalso. revert Hrep Hrun.
    unfold run_script, run_step2, script.
    unfold bind at 1 6, alloc at 1 2. cbv zeta.
    unfold bind at 1.
    destruct (step2 _ _) as [l1 h1|e]; [|done].
    intros Hrep Hl1.
    unfold bind at 1, top_revenue, bind at 1, sort_values, bind at 1, load in Hrep.
    by rewrite Hl1 in Hrep.
Qed.

End ScriptRun.

(** ** Top products by revenue (line 66) *)

Lemma floats_head_take n order df c xs :
  columns df !! c = Some (Float64 xs) →
  floats (head_frame n (take_rows order df)) c = firstn n (take_at order xs).
Proof.
  intros Hc. unfold floats, head_frame, take_rows. cbn [columns].
  by rewrite !lookup_fmap, Hc.
Qed.

Lemma nrows_head_take n order df :
  Forall (λ i, (i < nrows df)%nat) order →
  nrows (head_frame n (take_rows order df)) = min n (length order).
Proof.
  intros Hr. unfold nrows, head_frame, take_rows in *. cbn [index].
  destruct (index df); cbn in *; by rewrite length_take, length_take_at.
Qed.

Lemma Permutation_seq_range order n :
  order ≡ₚ seq 0 n → Forall (λ i, (i < n)%nat) order.
Proof.
  intros H. rewrite H. apply Forall_forall. intros i Hi%elem_of_seq. lia.
Qed.

(** ** Ties *)













(** The twelve products: the ten largest revenues are kept, in
    non-increasing order; the revenue of 1 and the missing one are cut. *)
Example dozen_top_revenue :
  nrows (final_df dozen_report) = 12%nat ∧
  floats (final_df dozen_report) "Total Revenue" =
    [of_Z 5; of_Z 7; of_Z 5; nan; of_Z 9; of_Z 7; of_Z 3; of_Z 5; of_Z 11;
     of_Z 2; of_Z 7; of_Z 1] ∧
  nrows (final_top_revenue dozen_report) = 10%nat ∧
  floats (final_top_revenue dozen_report) "Total Revenue" =
    [of_Z 11; of_Z 9; of_Z 7; of_Z 7; of_Z 7; of_Z 5; of_Z 5; of_Z 5; of_Z 3;
     of_Z 2].
Proof. vm_compute. done. Qed.

(** Two products of equal revenue come out in table order. *)
Example tied_rows_keep_order :
  ∃ rep,
    run_script stable_argsort naive_sum naive_mean tied_raw = Some rep ∧
    floats (final_df rep) "Total Revenue" = [of_Z 5; of_Z 5] ∧
    columns (final_top_revenue rep) !! "Product ID" =
      Some (StringDtype [Some "A"; Some "B"]).
Proof.
  eexists. split; [vm_compute; reflexivity|].
  split; vm_compute; reflexivity.
Qed.




(** ** Category roll-up (lines 75-79) *)

Lemma take_at_fmap {A B} (f : A → B) (idx : list nat) (xs : list A) :
  take_at idx (f <$> xs) = f <$> take_at idx xs.
Proof.
  unfold take_at. induction idx as [|i idx IH]; [done|].
  cbn. rewrite list_lookup_fmap, IH. by destruct (xs !! i).
Qed.

Lemma elem_of_group_keys keys k : k ∈ group_keys keys ↔ Some k ∈ keys.
Proof.
  unfold group_keys. rewrite merge_sort_Permutation, elem_of_remove_dups.
  rewrite list_elem_of_omap. split.
  - intros (x & Hx & Heq). unfold id in Heq. by subst.
  - intros Hk. by exists (Some k).
Qed.

Lemma NoDup_group_keys keys : NoDup (group_keys keys).
Proof.
  unfold group_keys. rewrite merge_sort_Permutation. apply NoDup_remove_dups.
Qed.

Lemma fillna_str_no_gap v xs : None ∉ fillna_str v xs.
Proof. unfold fillna_str. by intros (x & ? & _)%list_elem_of_fmap. Qed.

Lemma fillna_str_gap v xs : None ∈ xs → Some v ∈ fillna_str v xs.
Proof. intros H. unfold fillna_str. apply list_elem_of_fmap. by exists None. Qed.

Section Rollup.

Variable σ : list float → list nat.

Variables gs gm : list float → float.

Lemma rollup_columns order keys trs tps crs :
  let rollup := rounded (take_rows order (grouped gs gm keys trs tps crs)) in
  let labels := take_at order (group_keys keys) in
  index rollup = Object (Some <$> labels) ∧
  floats rollup "Total_Revenue" =
    (λ k, round2 (gs (group_values keys trs k))) <$> labels ∧
  floats rollup "Total_Profit" =
    (λ k, round2 (gs (group_values keys tps k))) <$> labels ∧
  floats rollup "Avg_Rating" =
    (λ k, round2 (gm (group_values keys crs k))) <$> labels.
Proof.
  cbv zeta. unfold rounded, take_rows, grouped, floats, list_to_map.
  cbn [index columns on_rows foldr uncurry fst snd].
  rewrite take_at_fmap. split; [done|].
  rewrite !lookup_fmap.
  repeat (rewrite lookup_insert_ne by done).
  rewrite !lookup_insert_eq.
  rewrite lookup_insert_ne, lookup_insert_eq by done.
  rewrite lookup_insert_ne, lookup_insert_ne, lookup_insert_eq by done.
  cbn. by rewrite !take_at_fmap, <- !list_fmap_compose.
Qed.

End Rollup.

(** C6, as stated, fails: the roll-up is rounded to two decimals
    (line 79), so for a category whose revenue sums to 0.125 the
    Total_Revenue field is 0.12, not the sum. *)
Lemma category_rollup_is_rounded :
  ∃ rep,
    run_script stable_argsort naive_sum naive_mean eighth_raw = Some rep ∧
    columns (final_df rep) !! "Category" = Some (Object [Some "Toys"]) ∧
    floats (final_df rep) "Total Revenue" = [decimal 125 3] ∧
    naive_sum (group_values [Some "Toys"] [decimal 125 3] "Toys") = decimal 125 3 ∧
    index (final_category_performance rep) = Object [Some "Toys"] ∧
    floats (final_category_performance rep) "Total_Revenue" = [decimal 12 2] ∧
    feqb (decimal 12 2) (decimal 125 3) = false.
Proof.
  eexists. split; [vm_compute; reflexivity|].
  repeat split; vm_compute; reflexivity.
Qed.

(** C6, amended: for every correct sorting kernel and any sum and mean
    kernels, the category roll-up has exactly one row per distinct
    Category value of the enriched table (no value is missing there;
    "Unknown" is among them when a category was missing in the input);
    its Total_Revenue and Total_Profit fields are the per-group sums and
    its Avg_Rating field the per-group mean, each rounded to two decimals;
    and its rows are ordered descending by the unrounded revenue sum. *)
Theorem category_rollup_rounded σ gs gm parsed rep :
  argsort_correct σ →
  run_script σ gs gm parsed = Some rep →
  ∃ cats trs tps crs labels,
    columns (final_df rep) !! "Category" = Some (Object cats) ∧
    columns (final_df rep) !! "Total Revenue" = Some (Float64 trs) ∧
    columns (final_df rep) !! "Total Profit" = Some (Float64 tps) ∧
    columns (final_df rep) !! "Customer Rating" = Some (Float64 crs) ∧
    index (final_category_performance rep) = Object (Some <$> labels) ∧
    NoDup labels ∧
    (∀ k, k ∈ labels ↔ Some k ∈ cats) ∧
    (None ∉ cats) ∧
    (∀ cat0, columns parsed !! "Category" = Some (Object cat0) →
       None ∈ cat0 → "Unknown" ∈ labels) ∧
    floats (final_category_performance rep) "Total_Revenue" =
      (λ k, round2 (gs (group_values cats trs k))) <$> labels ∧
    floats (final_category_performance rep) "Total_Profit" =
      (λ k, round2 (gs (group_values cats tps k))) <$> labels ∧
    floats (final_category_performance rep) "Avg_Rating" =
      (λ k, round2 (gm (group_values cats crs k))) <$> labels ∧
    desc_nan_last ((λ k, gs (group_values cats trs k)) <$> labels).
Proof.
  intros Hσ Hrep.
  pose proof (run_script_inv σ gs gm parsed rep Hrep) as Hrun.
  destruct (run_script_frames σ gs gm parsed _ Hrun)
    as (cats & trs & tps & crs & Hcat & Htr & Htp & Hcr & _ & Hfill & Heq).
  rewrite Hrep in Heq. injection Heq as Heq.
  set (order := nargsort σ (revenue_sums gs cats trs) false).
  assert (final_category_performance rep =
          rounded (take_rows order (grouped gs gm cats trs tps crs))) as ->
    by (by rewrite Heq).
  destruct (rollup_columns gs gm order cats trs tps crs)
    as (Hidx & Hrev & Hprof & Hrat).
  assert (order ≡ₚ seq 0 (length (group_keys cats))) as Hperm.
  { unfold order. rewrite nargsort_Permutation by done.
    unfold revenue_sums. by rewrite length_fmap. }
  pose proof (take_at_Permutation order (group_keys cats) Hperm) as Hlabels.
  exists cats, trs, tps, crs, (take_at order (group_keys cats)).
  do 4 (split; [done|]). split; [done|].
  split; [rewrite Hlabels; apply NoDup_group_keys|].
  split; [intros k; rewrite Hlabels; apply elem_of_group_keys|].
  assert (None ∉ cats) as Hgap.
  { destruct (run_step2_inv _ _ Hrun)
      as (pid & pid_text & cat & us & up & cpu & cr & inv & Hld & _ & Henr).
    rewrite Henr in Hcat.
    destruct (enriched_columns parsed pid_text cat us up cpu cr inv) as (Hc & _).
    cbv zeta in Hc. rewrite Hc in Hcat. injection Hcat as <-.
    apply fillna_str_no_gap. }
  split; [done|].
  split.
  { intros cat0 Hcat0 Hnone. rewrite Hlabels. apply elem_of_group_keys.
    rewrite (Hfill cat0 Hcat0). by apply fillna_str_gap. }
  do 3 (split; [done|]).
  pose proof (nargsort_desc_nan_last σ (revenue_sums gs cats trs) Hσ) as Hdesc.
  fold order in Hdesc. unfold revenue_sums in Hdesc.
  by rewrite take_at_fmap in Hdesc.
Qed.

Lemma category_rollup_rounded_witness :
  ∃ cats trs tps crs labels,
    columns (final_df example_report) !! "Category" = Some (Object cats) ∧
    columns (final_df example_report) !! "Total Revenue" = Some (Float64 trs) ∧
    columns (final_df example_report) !! "Total Profit" = Some (Float64 tps) ∧
    columns (final_df example_report) !! "Customer Rating" = Some (Float64 crs) ∧
    index (final_category_performance example_report) = Object (Some <$> labels) ∧
    NoDup labels ∧
    (∀ k, k ∈ labels ↔ Some k ∈ cats) ∧
    (None ∉ cats) ∧
    (∀ cat0, columns example_raw !! "Category" = Some (Object cat0) →
       None ∈ cat0 → "Unknown" ∈ labels) ∧
    floats (final_category_performance example_report) "Total_Revenue" =
      (λ k, round2 (naive_sum (group_values cats trs k))) <$> labels ∧
    floats (final_category_performance example_report) "Total_Profit" =
      (λ k, round2 (naive_sum (group_values cats tps k))) <$> labels ∧
    floats (final_category_performance example_report) "Avg_Rating" =
      (λ k, round2 (naive_mean (group_values cats crs k))) <$> labels ∧
    desc_nan_last ((λ k, naive_sum (group_values cats trs k)) <$> labels).
Proof.
  apply (category_rollup_rounded stable_argsort naive_sum naive_mean example_raw).
  - exact stable_argsort_correct.
  - exact run_script_example.
Defined.

(** ** The raw frame is left alone *)

(** An update through an alias reaches the object; through a copy it does
    not. *)
Example alias_and_copy df c s :
  slen s = nrows df →
  (let! a := alloc df in setitem a c s ;;; load a) ∅ =
    Ok (with_column c s df) (<[fresh (dom (∅ : gmap loc DataFrame)) := with_column c s df]> ∅) ∧
  ∃ h, (let! a := alloc df in let! b := copy a in setitem b c s ;;; load a) ∅ =
    Ok df h.
Proof.
  intros Hlen. split.
  - unfold bind at 1, alloc. cbv zeta. rewrite setitem_run by done.
    unfold load. by rewrite lookup_insert_eq.
  - unfold bind at 1, alloc. cbv zeta.
    unfold copy. rewrite bind_assoc. unfold bind at 1, load.
    rewrite lookup_insert_eq. unfold bind at 1, alloc. cbv zeta.
    rewrite setitem_run by done. unfold load.
    rewrite lookup_insert_ne, lookup_insert_eq; [by eexists|].
    intros Heq. pose proof (fresh_lookup (<[fresh (dom (∅ : gmap loc DataFrame)) := df]> ∅)) as Hf.
    rewrite Heq, lookup_insert_eq in Hf. done.
Qed.

(** C8: when the script has run, [df_raw] still refers to the frame as
    loaded; the enriched frame has the same index (so the same number of
    rows in the same order), its Product ID column is the text of the raw
    one entry by entry, and every column the script does not assign is
    the raw one. *)
Theorem raw_frame_preserved σ gs gm parsed rep :
  run_script σ gs gm parsed = Some rep →
  final_df_raw rep = parsed ∧
  nrows (final_df rep) = nrows parsed ∧
  index (final_df rep) = index parsed ∧
  (∃ pid ids,
     columns parsed !! "Product ID" = Some pid ∧
     as_text pid = Some ids ∧
     length ids = nrows parsed ∧
     columns (final_df rep) !! "Product ID" = Some (StringDtype ids)) ∧
  (∀ c, c ∉ written_columns →
     columns (final_df rep) !! c = columns parsed !! c).
Proof.
  intros Hrep.
  pose proof (run_script_inv σ gs gm parsed rep Hrep) as Hrun.
  destruct (run_script_frames σ gs gm parsed _ Hrun)
    as (cats & trs & tps & crs & _ & _ & _ & _ & _ & _ & Heq).
  rewrite Hrep in Heq. injection Heq as Heq.
  split; [by rewrite Heq|].
  destruct (run_step2_inv _ _ Hrun)
    as (pid & pid_text & cat & us & up & cpu & cr & inv & Hld & Htext & ->).
  split; [done|]. split; [done|]. split.
  - exists pid, pid_text. destruct Hld.
    split; [done|]. split; [done|].
    split; [by rewrite (length_as_text _ _ Htext)|].
    unfold enriched. col_lookup.
  - intros c Hc. unfold written_columns in Hc.
    unfold enriched. cbn [columns with_column].
    repeat (rewrite lookup_insert_ne; [|intros <-; apply Hc; set_solver]).
    done.
Qed.

Lemma raw_frame_preserved_witness :
  final_df_raw example_report = example_raw ∧
  nrows (final_df example_report) = nrows example_raw ∧
  index (final_df example_report) = index example_raw ∧
  (∃ pid ids,
     columns example_raw !! "Product ID" = Some pid ∧
     as_text pid = Some ids ∧
     length ids = nrows example_raw ∧
     columns (final_df example_report) !! "Product ID" = Some (StringDtype ids)) ∧
  (∀ c, c ∉ written_columns →
     columns (final_df example_report) !! c = columns example_raw !! c).
Proof.
  apply (raw_frame_preserved stable_argsort naive_sum naive_mean).
  exact run_script_example.
Defined.

(** ** The Product ID column (lines 17 and 39) *)

Lemma parse_str_of_int z : in_int64 z = true → parse_int64 (str_of_int z) = Some z.
Proof.
  intros Hz. unfold parse_int64, str_of_int.
  rewrite NilZero.isi.
  - cbv zeta. by rewrite DecimalZ.of_to, Hz.
  - destruct z; simpl; try done.
    intros [= H]. by apply Unsigned.to_uint_nonnil in H.
  - destruct z; simpl; try done.
    intros [= H]. by apply Unsigned.to_uint_nonnil in H.
Qed.

(** C9, as stated, fails: identifiers written 007 and 042 in the file are
    loaded as the integers 7 and 42 (line 17), and the coercion of line 39
    turns them into the texts 7 and 42; the leading zeros are gone. *)
Lemma product_id_leading_zeros_lost :
  ∃ pid enr,
    read_csv_ints ["007"; "042"] = Some pid ∧
    pid = Int64 [7; 42] ∧
    run_step2 (with_column "Product ID" pid tied_raw) = Some enr ∧
    columns enr !! "Product ID" = Some (StringDtype [Some "7"; Some "42"]) ∧
    String.eqb "7" "007" = false.
Proof.
  eexists _, _. split; [vm_compute; reflexivity|].
  split; [reflexivity|]. split; [vm_compute; reflexivity|].
  split; vm_compute; reflexivity.
Qed.

(** C9, amended: the coercion step replaces the loaded Product ID column
    by its text: an identifier loaded as text is kept exactly as loaded;
    an identifier loaded as an integer becomes its canonical decimal text,
    from which the same integer is read back (within int64 no precision
    is lost), but the formatting it had in the file, such as leading
    zeros, is not restored. *)
Theorem product_id_as_text parsed enr pid :
  run_step2 parsed = Some enr →
  columns parsed !! "Product ID" = Some pid →
  ∃ ids,
    as_text pid = Some ids ∧
    columns enr !! "Product ID" = Some (StringDtype ids) ∧
    (∀ xs, pid = Object xs → ids = xs) ∧
    (∀ zs, pid = Int64 zs →
       ids = (λ z, Some (str_of_int z)) <$> zs ∧
       ∀ z, z ∈ zs → in_int64 z = true → parse_int64 (str_of_int z) = Some z).
Proof.
  intros Hrun Hpid.
  destruct (run_step2_inv _ _ Hrun)
    as (pid' & pid_text & cat & us & up & cpu & cr & inv & Hld & Htext & ->).
  assert (pid' = pid) as -> by (destruct Hld; congruence).
  exists pid_text. split; [done|].
  split; [unfold enriched; col_lookup|].
  split.
  - intros xs ->. by injection Htext as <-.
  - intros zs ->. injection Htext as <-. split; [done|].
    intros z _. apply parse_str_of_int.
Qed.

Lemma product_id_as_text_witness :
  ∃ ids,
    as_text (Int64 [7; 42]) = Some ids ∧
    columns numbered_enriched !! "Product ID" = Some (StringDtype ids) ∧
    (∀ xs, Int64 [7; 42] = Object xs → ids = xs) ∧
    (∀ zs, Int64 [7; 42] = Int64 zs →
       ids = (λ z, Some (str_of_int z)) <$> zs ∧
       ∀ z, z ∈ zs → in_int64 z = true → parse_int64 (str_of_int z) = Some z).
Proof.
  apply (product_id_as_text numbered_raw numbered_enriched).
  - vm_compute. reflexivity.
  - vm_compute. reflexivity.
Defined.

(** * Further properties of the script *)

(** ** What Step 2 imputes and what it leaves missing *)

Lemma lookup_fillna_str v xs i :
  fillna_str v xs !! i = (λ x, Some (default v x)) <$> xs !! i.
Proof. unfold fillna_str. apply list_lookup_fmap. Qed.

(** X1 (line 35): in the enriched table no Category is missing; a category
    that was present is kept, a missing one reads "Unknown"; so a row is
    labelled "Unknown" exactly when its category was missing or was
    already the text "Unknown". *)
Theorem category_fill raw enr cats0 :
  run_step2 raw = Some enr →
  columns raw !! "Category" = Some (Object cats0) →
  ∃ cats,
    columns enr !! "Category" = Some (Object cats) ∧
    length cats = length cats0 ∧
    (None ∉ cats) ∧
    (∀ i k, cats0 !! i = Some (Some k) → cats !! i = Some (Some k)) ∧
    (∀ i, cats0 !! i = Some None → cats !! i = Some (Some "Unknown")) ∧
    (∀ i, cats !! i = Some (Some "Unknown") ↔
          cats0 !! i = Some None ∨ cats0 !! i = Some (Some "Unknown")).
Proof.
  intros Hrun Hcat0.
  destruct (run_step2_inv _ _ Hrun)
    as (pid & pid_text & cat & us & up & cpu & cr & inv & Hld & Htext & ->).
  assert (cat = cats0) as -> by (destruct Hld; congruence).
  exists (fillna_str "Unknown" cats0).
  split; [unfold enriched; col_lookup|].
  split; [apply length_fillna_str|].
  split; [apply fillna_str_no_gap|].
  split; [|split].
  - intros i k Hi. by rewrite lookup_fillna_str, Hi.
  - intros i Hi. by rewrite lookup_fillna_str, Hi.
  - intros i. rewrite lookup_fillna_str.
    destruct (cats0 !! i) as [[k|]|]; simpl; intuition congruence.
Qed.

Lemma category_fill_witness :
  ∃ cats,
    columns example_enriched !! "Category" = Some (Object cats) ∧
    length cats = length [Some "Toys"; None] ∧
    (None ∉ cats) ∧
    (∀ i k, [Some "Toys"; None] !! i = Some (Some k) → cats !! i = Some (Some k)) ∧
    (∀ i, [Some "Toys"; None] !! i = Some None → cats !! i = Some (Some "Unknown")) ∧
    (∀ i, cats !! i = Some (Some "Unknown") ↔
          [Some "Toys"; None] !! i = Some None ∨
          [Some "Toys"; None] !! i = Some (Some "Unknown")).
Proof.
  apply (category_fill example_raw example_enriched).
  - exact run_step2_example.
  - reflexivity.
Defined.

Lemma fsub_nan_l x y : is_nan x = true → is_nan (fsub x y) = true.
Proof. by destruct x, y. Qed.

Lemma fsub_nan_r x y : is_nan y = true → is_nan (fsub x y) = true.
Proof. by destruct x, y. Qed.

(** X2 (lines 30-45): only Units Sold, Customer Rating and Category are
    imputed.  A row whose Unit Price is missing has NaN Total Revenue,
    Total Profit and Profit Margin; a missing Cost Per Unit makes Total
    Profit and Profit Margin NaN; a missing Inventory makes Inventory
    Turnover NaN. *)
Theorem missing_inputs_propagate raw enr i :
  run_step2 raw = Some enr →
  (i < nrows enr)%nat →
  ∃ p c v tr tp pm it,
    cell raw "Unit Price" i = Some p ∧
    cell raw "Cost Per Unit" i = Some c ∧
    cell raw "Inventory" i = Some v ∧
    cell enr "Total Revenue" i = Some tr ∧
    cell enr "Total Profit" i = Some tp ∧
    cell enr "Profit Margin (%)" i = Some pm ∧
    cell enr "Inventory Turnover" i = Some it ∧
    (is_nan p = true → is_nan tr = true ∧ is_nan tp = true ∧ is_nan pm = true) ∧
    (is_nan c = true → is_nan tp = true ∧ is_nan pm = true) ∧
    (is_nan v = true → is_nan it = true).
Proof.
  intros Hrun Hi.
  destruct (enriched_row raw enr i Hrun Hi)
    as (u0 & u & p & c & v & _ & _ & _ & Hp & Hc & Hv & Htr & Htp & Hpm & Hit).
  assert (∀ col, col ∉ written_columns → cell enr col i = cell raw col i) as Hsame.
  { intros col Hcol. unfold cell, floats.
    destruct (run_step2_inv _ _ Hrun)
      as (pid & pid_text & cat & us & up & cpu & cr & inv & _ & _ & ->).
    unfold written_columns in Hcol. unfold enriched. cbn [columns with_column].
    repeat (rewrite lookup_insert_ne;
            [|intros <-; apply Hcol; by apply (bool_decide_unpack _)]).
    done. }
  rewrite Hsame in Hp, Hc, Hv by (by apply (bool_decide_unpack _)).
  eexists p, c, v, _, _, _, _. do 7 (split; [eassumption|]).
  rewrite is_nan_times_100, !fdiv_is_nan, !fmul_is_nan.
  split; [|split].
  - intros Hn. rewrite (fsub_nan_l p c Hn), Hn.
    by rewrite !orb_true_r.
  - intros Hn. rewrite (fsub_nan_r p c Hn).
    by rewrite !orb_true_r.
  - intros ->. by rewrite !orb_true_r.
Qed.

Lemma missing_inputs_propagate_witness :
  ∃ p c v tr tp pm it,
    cell unpriced_raw "Unit Price" 0 = Some p ∧
    cell unpriced_raw "Cost Per Unit" 0 = Some c ∧
    cell unpriced_raw "Inventory" 0 = Some v ∧
    cell (default empty_frame (run_step2 unpriced_raw)) "Total Revenue" 0 = Some tr ∧
    cell (default empty_frame (run_step2 unpriced_raw)) "Total Profit" 0 = Some tp ∧
    cell (default empty_frame (run_step2 unpriced_raw)) "Profit Margin (%)" 0 = Some pm ∧
    cell (default empty_frame (run_step2 unpriced_raw)) "Inventory Turnover" 0 = Some it ∧
    (is_nan p = true → is_nan tr = true ∧ is_nan tp = true ∧ is_nan pm = true) ∧
    (is_nan c = true → is_nan tp = true ∧ is_nan pm = true) ∧
    (is_nan v = true → is_nan it = true).
Proof.
  apply (missing_inputs_propagate unpriced_raw).
  - vm_compute. reflexivity.
  - vm_compute. lia.
Defined.

(** ** Step 3 after Step 2 *)

(** X3 (lines 66, 70, 75-79): once cleaning and metric derivation have
    run through, the ranking and roll-up computations raise no error,
    whatever the sorting and aggregation kernels; they build new frames
    and leave the enriched frame exactly as Step 2 produced it and the
    loaded frame as it was.  (The print statements between them are
    treated further below.) *)
Theorem ranking_never_fails σ gs gm parsed enr :
  run_step2 parsed = Some enr →
  ∃ rep,
    run_script σ gs gm parsed = Some rep ∧
    final_df rep = enr ∧
    final_df_raw rep = parsed.
Proof.
  intros Hrun.
  destruct (run_script_frames σ gs gm parsed enr Hrun)
    as (cats & trs & tps & crs & _ & _ & _ & _ & _ & _ & Heq).
  eexists. split; [exact Heq|]. done.
Qed.

Lemma ranking_never_fails_witness :
  ∃ rep,
    run_script stable_argsort naive_sum naive_mean example_raw = Some rep ∧
    final_df rep = example_enriched ∧
    final_df_raw rep = example_raw.
Proof.
  apply ranking_never_fails. exact run_step2_example.
Defined.

(** ** A column the script reads is absent *)

Ltac mget_or_keyerror c :=
  mnorm;
  match goal with
  | |- context [bind (getitem _ c) _ (<[_ := ?df]> _)] =>
      let s := fresh "s" in
      let Hs := fresh "Hcol" in
      destruct (columns df !! c) as [s|] eqn:Hs;
      cbn [columns with_column] in Hs;
      repeat (rewrite lookup_insert_ne in Hs by done);
      [ rewrite (getitem_run _ _ _ _ s) by col_lookup
      | rewrite getitem_missing by col_lookup;
        intros [= <-]; split; [by apply (bool_decide_unpack _)|exact Hs] ]
  end.

(** X4 (lines 30-45): a KeyError out of cleaning and metric derivation
    names a column that the loaded table lacks, and it is one of the seven
    columns these lines read. *)
Theorem key_error_names_absent_column raw c :
  step2_outcome raw = Raise (KeyError c) →
  c ∈ read_columns ∧ columns raw !! c = None.
Proof.
  unfold step2_outcome, bind at 1, alloc. cbv zeta.
  set (l0 := fresh (dom (∅ : gmap loc DataFrame))).
  unfold step2, copy. rewrite bind_assoc.
  unfold bind at 1, load. rewrite lookup_insert_eq.
  unfold bind at 1, alloc. cbv zeta.
  set (l := fresh (dom _)). set (h := <[l0 := raw]> ∅).
  unfold fill_missing_numeric, for_each, fill_missing_categorical,
    coerce_identifier, derive_metrics, median, fillna_inplace,
    fillna_str_inplace, astype_string, series_mul, series_sub, series_div,
    series_scale, binop.
  mget_or_keyerror "Units Sold". destruct s as [us| | |]; mnorm; try done.
  mret. mget (Float64 us). mset_cases.
  mget_or_keyerror "Customer Rating". destruct s as [cr| | |]; mnorm; try done.
  mret. mget (Float64 cr). mset_cases. mret.
  mget_or_keyerror "Category". destruct s as [| |cat|]; mnorm; try done.
  mset_cases.
  mget_or_keyerror "Product ID". rename s into pid.
  destruct (as_text pid) as [pid_text|] eqn:Htext; mnorm; try done.
  mret. mset_cases.
  mget (Float64 (median_fill us)).
  mget_or_keyerror "Unit Price". destruct s as [up| | |]; mnorm; try done.
  mlen_cases. mret. mset_cases.
  mget (Float64 (median_fill us)). mget (Float64 up).
  mget_or_keyerror "Cost Per Unit". destruct s as [cpu| | |]; mnorm; try done.
  mlen_cases. mret. mlen_cases. mret. mset_cases.
  mget (Float64 (total_profit us up cpu)). mget (Float64 (total_revenue us up)).
  mlen_cases. mret. mret. mset_cases.
  mget (Float64 (median_fill us)).
  mget_or_keyerror "Inventory". destruct s as [inv| | |]; mnorm; try done.
  mlen_cases. mret. mset_cases.
  done.
Qed.

Lemma key_error_names_absent_column_witness :
  "Inventory" ∈ read_columns ∧ columns no_inventory_raw !! "Inventory" = None.
Proof.
  apply (key_error_names_absent_column no_inventory_raw).
  vm_compute. reflexivity.
Defined.

Lemma step2_outcome_ok raw l h :
  step2_outcome raw = Ok l h → is_Some (h !! l).
Proof.
  unfold step2_outcome, bind at 1, alloc. cbv zeta.
  set (l0 := fresh (dom (∅ : gmap loc DataFrame))).
  unfold step2, copy. rewrite bind_assoc.
  unfold bind at 1, load. rewrite lookup_insert_eq.
  unfold bind at 1, alloc. cbv zeta.
  set (l1 := fresh (dom _)). set (h0 := <[l0 := raw]> ∅).
  unfold fill_missing_numeric, for_each, fill_missing_categorical,
    coerce_identifier, derive_metrics, median, fillna_inplace,
    fillna_str_inplace, astype_string, series_mul, series_sub, series_div,
    series_scale, binop.
  mget_cases "Units Sold". destruct s as [us| | |]; mnorm; try done.
  mret. mget (Float64 us). mset_cases.
  mget_cases "Customer Rating". destruct s as [cr| | |]; mnorm; try done.
  mret. mget (Float64 cr). mset_cases. mret.
  mget_cases "Category". destruct s as [| |cat|]; mnorm; try done.
  mset_cases.
  mget_cases "Product ID". rename s into pid.
  destruct (as_text pid) as [pid_text|] eqn:Htext; mnorm; try done.
  mret. mset_cases.
  mget (Float64 (median_fill us)).
  mget_cases "Unit Price". destruct s as [up| | |]; mnorm; try done.
  mlen_cases. mret. mset_cases.
  mget (Float64 (median_fill us)). mget (Float64 up).
  mget_cases "Cost Per Unit". destruct s as [cpu| | |]; mnorm; try done.
  mlen_cases. mret. mlen_cases. mret. mset_cases.
  mget (Float64 (total_profit us up cpu)). mget (Float64 (total_revenue us up)).
  mlen_cases. mret. mret. mset_cases.
  mget (Float64 (median_fill us)).
  mget_cases "Inventory". destruct s as [inv| | |]; mnorm; try done.
  mlen_cases. mret. mset_cases.
  unfold ret. intros [= <- <-]. rewrite lookup_insert_eq. eauto.
Qed.

(** X5 (lines 30-45): when the loaded table lacks one of the seven
    columns these lines read, the script does not get past them: an
    exception is raised. *)
Theorem absent_column_raises raw c :
  c ∈ read_columns →
  columns raw !! c = None →
  ∃ e, step2_outcome raw = Raise e.
Proof.
  intros Hc Hnone.
  destruct (step2_outcome raw) as [l h|e] eqn:Hout; [|by eexists].
  destruct (step2_outcome_ok _ _ _ Hout) as [enr Henr].
  assert (run_step2 raw = Some enr) as Hrun.
  { unfold run_step2. fold (step2_outcome raw). by rewrite Hout. }
  apply run_step2_inv in Hrun as (? & ? & ? & ? & ? & ? & ? & ? & [] & _ & _).
  unfold read_columns in Hc.
  repeat (apply elem_of_cons in Hc as [->|Hc]; [congruence|]).
  by apply elem_of_nil in Hc.
Qed.

Lemma absent_column_raises_witness :
  ∃ e, step2_outcome no_inventory_raw = Raise e.
Proof.
  apply (absent_column_raises no_inventory_raw "Inventory").
  - by apply (bool_decide_unpack _).
  - vm_compute. reflexivity.
Defined.

(** ** The bottom-profit list (line 70) and whole rows *)

Lemma asc_nan_last_app vs ns :
  StronglySorted fle vs →
  Forall (λ x, is_nan x = false) vs →
  Forall (λ x, is_nan x = true) ns →
  asc_nan_last (vs ++ ns).
Proof.
  intros Hs Hvs Hns i j x y Hij Hi Hj.
  apply lookup_app_Some in Hj as [Hj | [Hlen Hj]].
  - right. assert (vs !! i = Some x) as Hi'.
    { apply lookup_lt_Some in Hj. by rewrite lookup_app_l in Hi by lia. }
    split.
    + rewrite Forall_lookup in Hvs. by apply (Hvs i).
    + by apply (StronglySorted_lookup fle vs i j x y).
  - left. rewrite Forall_lookup in Hns. by eapply Hns.
Qed.

Lemma nargsort_asc_nan_last σ items :
  argsort_correct σ →
  asc_nan_last (take_at (nargsort σ items true) items).
Proof.
  intros Hσ. rewrite (nargsort_keys σ items true). cbv zeta.
  pose proof (nargsort_sorted σ Hσ items true) as Hs.
  destruct (Hσ _ (sort_input_not_nan items true)) as [Hperm _].
  apply asc_nan_last_app.
  - done.
  - rewrite (take_at_Permutation _ _ Hperm).
    apply sort_input_not_nan.
  - apply Forall_forall. by intros x [Hx _]%list_elem_of_filter.
Qed.

Lemma asc_nan_last_firstn n ks : asc_nan_last ks → asc_nan_last (firstn n ks).
Proof.
  intros H i j x y Hij Hi Hj.
  apply lookup_take_Some in Hi as [Hi _], Hj as [Hj _]. eauto.
Qed.

(** X6 (line 70): for every correct sorting kernel, the bottom-profit
    frame is the first 10 rows of the enriched table reordered by [order],
    where [order] lists every row exactly once and along it Total Profit
    never decreases, rows with NaN profit last.  It has min(10, row count)
    rows, and no row left out has a smaller profit than a returned one. *)
Theorem bottom_profit_ranked σ gs gm parsed rep :
  argsort_correct σ →
  run_script σ gs gm parsed = Some rep →
  ∃ order,
    order ≡ₚ seq 0 (nrows (final_df rep)) ∧
    asc_nan_last (take_at order (floats (final_df rep) "Total Profit")) ∧
    final_bottom_profit rep = head_frame 10 (take_rows order (final_df rep)) ∧
    nrows (final_bottom_profit rep) = min 10 (nrows (final_df rep)) ∧
    floats (final_bottom_profit rep) "Total Profit" =
      firstn 10 (take_at order (floats (final_df rep) "Total Profit")) ∧
    asc_nan_last (floats (final_bottom_profit rep) "Total Profit") ∧
    (∀ i j x y, (i < 10 ≤ j)%nat →
       take_at order (floats (final_df rep) "Total Profit") !! i = Some x →
       take_at order (floats (final_df rep) "Total Profit") !! j = Some y →
       is_nan y = true ∨ (is_nan x = false ∧ fle x y)).
Proof.
  intros Hσ Hrep.
  pose proof (run_script_inv σ gs gm parsed rep Hrep) as Hrun.
  destruct (run_script_frames σ gs gm parsed _ Hrun)
    as (cats & trs & tps & crs & _ & Htr & Htp & _ & Hlen & _ & Heq).
  rewrite Hrep in Heq. injection Heq as Heq.
  set (enr := final_df rep) in *.
  assert (final_bottom_profit rep = head_frame 10 (take_rows (nargsort σ tps true) enr))
    as Hbot by (by rewrite Heq).
  assert (length tps = nrows enr) as Hlen'.
  { apply run_step2_inv in Hrun
      as (pid & pid_text & cat & us & up & cpu & cr & inv & [] & _ & Henr).
    pose proof (enriched_columns parsed pid_text cat us up cpu cr inv) as Hcols.
    cbv zeta in Hcols. rewrite <- Henr in Hcols.
    destruct Hcols as (_ & _ & Htp' & _).
    rewrite Htp in Htp'. injection Htp' as ->.
    rewrite Henr. unfold enriched. col_len. }
  exists (nargsort σ tps true).
  assert (nargsort σ tps true ≡ₚ seq 0 (nrows enr)) as Hperm.
  { rewrite <- Hlen'. by apply nargsort_Permutation. }
  rewrite (floats_lookup enr _ tps Htp), Hbot.
  rewrite (floats_head_take _ _ _ _ tps Htp).
  pose proof (nargsort_asc_nan_last σ tps Hσ) as Hasc.
  repeat split; try done.
  - rewrite nrows_head_take by (by apply Permutation_seq_range).
    by rewrite Hperm, length_seq.
  - by apply asc_nan_last_firstn.
  - intros i j x y Hij. apply Hasc. lia.
Qed.

Lemma bottom_profit_ranked_witness :
  ∃ order,
    order ≡ₚ seq 0 (nrows (final_df example_report)) ∧
    asc_nan_last (take_at order (floats (final_df example_report) "Total Profit")) ∧
    final_bottom_profit example_report =
      head_frame 10 (take_rows order (final_df example_report)) ∧
    nrows (final_bottom_profit example_report) =
      min 10 (nrows (final_df example_report)) ∧
    floats (final_bottom_profit example_report) "Total Profit" =
      firstn 10 (take_at order (floats (final_df example_report) "Total Profit")) ∧
    asc_nan_last (floats (final_bottom_profit example_report) "Total Profit") ∧
    (∀ i j x y, (i < 10 ≤ j)%nat →
       take_at order (floats (final_df example_report) "Total Profit") !! i = Some x →
       take_at order (floats (final_df example_report) "Total Profit") !! j = Some y →
       is_nan y = true ∨ (is_nan x = false ∧ fle x y)).
Proof.
  apply (bottom_profit_ranked stable_argsort naive_sum naive_mean example_raw).
  - exact stable_argsort_correct.
  - exact run_script_example.
Defined.

Lemma nrows_enriched raw pid_text cat us up cpu cr inv :
  nrows (enriched raw pid_text cat us up cpu cr inv) = nrows raw.
Proof. reflexivity. Qed.

Lemma well_formed_with_column c s df :
  slen s = nrows df → well_formed df → well_formed (with_column c s df).
Proof.
  intros Hs Hdf. unfold well_formed. cbn [columns with_column].
  apply map_Forall_insert_2; [by rewrite nrows_with_column|].
  intros c' s' Hc'. rewrite nrows_with_column. by apply (Hdf c').
Qed.

(** Lines 26-45 keep the frame rectangular. *)
Lemma well_formed_enriched raw enr :
  well_formed raw → run_step2 raw = Some enr → well_formed enr.
Proof.
  intros Hwf Hrun.
  apply run_step2_inv in Hrun
    as (pid & pid_text & cat & us & up & cpu & cr & inv & [] & Htext & ->).
  pose proof (length_as_text _ _ Htext).
  unfold enriched.
  repeat (apply well_formed_with_column; [col_len|]).
  done.
Qed.

Lemma series_get_head_take n order s k i :
  Forall (λ j, (j < slen s)%nat) order →
  (k < n)%nat →
  order !! k = Some i →
  series_get (on_rows (λ A, firstn n) (on_rows (λ A, take_at order) s)) k =
  series_get s i.
Proof.
  intros Hr Hk Hi.
  destruct s; cbn in *; by rewrite lookup_take_lt, take_at_lookup, Hi by done.
Qed.

Lemma iloc_head_take n order df k i :
  well_formed df →
  Forall (λ j, (j < nrows df)%nat) order →
  (k < n)%nat →
  order !! k = Some i →
  iloc k (head_frame n (take_rows order df)) = iloc i df.
Proof.
  intros Hwf Hr Hk Hi. unfold iloc, head_frame, take_rows. cbn [index columns].
  rewrite (series_get_head_take n order (index df) k i) by done.
  destruct (series_get (index df) i) as [label|]; [|done].
  f_equal. f_equal. apply map_eq. intros c.
  rewrite !lookup_omap, !lookup_fmap.
  destruct (columns df !! c) as [s|] eqn:Hc; [|done]. cbn.
  apply series_get_head_take; [|done..].
  by rewrite (Hwf c s Hc).
Qed.

(** X7 (lines 66, 70): ranking moves rows as a whole.  On a rectangular
    table and with a correct sorting kernel, the row at position [k] of
    the top-revenue (bottom-profit) frame is, label and every column, the
    row of the enriched table that the revenue (profit) order puts at
    position [k]; each order lists every row of the table exactly once. *)
Theorem ranked_rows_are_table_rows σ gs gm parsed rep :
  argsort_correct σ →
  well_formed parsed →
  run_script σ gs gm parsed = Some rep →
  ∃ by_revenue by_profit,
    by_revenue ≡ₚ seq 0 (nrows (final_df rep)) ∧
    by_profit ≡ₚ seq 0 (nrows (final_df rep)) ∧
    (∀ k i, (k < 10)%nat → by_revenue !! k = Some i →
       iloc k (final_top_revenue rep) = iloc i (final_df rep)) ∧
    (∀ k i, (k < 10)%nat → by_profit !! k = Some i →
       iloc k (final_bottom_profit rep) = iloc i (final_df rep)).
Proof.
  intros Hσ Hwf Hrep.
  pose proof (run_script_inv σ gs gm parsed rep Hrep) as Hrun.
  pose proof (well_formed_enriched _ _ Hwf Hrun) as Hwf'.
  destruct (run_script_frames σ gs gm parsed _ Hrun)
    as (cats & trs & tps & crs & _ & Htr & Htp & _ & _ & _ & Heq).
  rewrite Hrep in Heq. injection Heq as Heq.
  set (enr := final_df rep) in *.
  assert (nargsort σ trs false ≡ₚ seq 0 (nrows enr)) as Hpt.
  { rewrite <- (Hwf' _ _ Htr). by apply nargsort_Permutation. }
  assert (nargsort σ tps true ≡ₚ seq 0 (nrows enr)) as Hpb.
  { rewrite <- (Hwf' _ _ Htp). by apply nargsort_Permutation. }
  exists (nargsort σ trs false), (nargsort σ tps true).
  split; [done|]. split; [done|].
  rewrite Heq. cbn [final_top_revenue final_bottom_profit].
  split; intros k i Hk Hi; apply iloc_head_take; try done;
    by apply Permutation_seq_range.
Qed.

Lemma ranked_rows_are_table_rows_witness :
  ∃ by_revenue by_profit,
    by_revenue ≡ₚ seq 0 (nrows (final_df example_report)) ∧
    by_profit ≡ₚ seq 0 (nrows (final_df example_report)) ∧
    (∀ k i, (k < 10)%nat → by_revenue !! k = Some i →
       iloc k (final_top_revenue example_report) = iloc i (final_df example_report)) ∧
    (∀ k i, (k < 10)%nat → by_profit !! k = Some i →
       iloc k (final_bottom_profit example_report) = iloc i (final_df example_report)).
Proof.
  apply (ranked_rows_are_table_rows stable_argsort naive_sum naive_mean example_raw).
  - exact stable_argsort_correct.
  - apply (bool_decide_unpack _). vm_compute. reflexivity.
  - exact run_script_example.
Defined.

Lemma texts_head_take n order df c xs :
  columns df !! c = Some (StringDtype xs) →
  texts (head_frame n (take_rows order df)) c = firstn n (take_at order xs).
Proof.
  intros Hc. unfold texts, head_frame, take_rows. cbn [columns].
  by rewrite !lookup_fmap, Hc.
Qed.

(** X8 (lines 66, 70): on a table of at most ten products, the
    top-revenue list and the bottom-profit list each show every product of
    the table exactly once, so the two lists hold the same products. *)
Theorem short_table_lists_every_product σ gs gm parsed rep :
  argsort_correct σ →
  run_script σ gs gm parsed = Some rep →
  (nrows (final_df rep) ≤ 10)%nat →
  texts (final_top_revenue rep) "Product ID" ≡ₚ texts (final_df rep) "Product ID" ∧
  texts (final_bottom_profit rep) "Product ID" ≡ₚ texts (final_df rep) "Product ID".
Proof.
  intros Hσ Hrep Hshort.
  pose proof (run_script_inv σ gs gm parsed rep Hrep) as Hrun.
  destruct (run_script_frames σ gs gm parsed _ Hrun)
    as (cats & trs & tps & crs & _ & Htr & Htp & _ & _ & _ & Heq).
  rewrite Hrep in Heq. injection Heq as Heq.
  set (enr := final_df rep) in *.
  destruct (run_step2_inv _ _ Hrun)
    as (pid & pid_text & cat & us & up & cpu & cr & inv & [] & Htext & Henr).
  pose proof (length_as_text _ _ Htext) as Hlt.
  pose proof (enriched_columns parsed pid_text cat us up cpu cr inv) as Hcols.
  cbv zeta in Hcols. rewrite <- Henr in Hcols.
  destruct Hcols as (_ & Htr' & Htp' & _ & Hpid).
  assert (nrows enr = nrows parsed) as Hn by (by rewrite Henr).
  assert (length trs = nrows enr ∧ length tps = nrows enr) as [Hlt1 Hlt2].
  { rewrite Htr in Htr'. rewrite Htp in Htp'.
    injection Htr' as ->. injection Htp' as ->. split; col_len. }
  assert (∀ order, order ≡ₚ seq 0 (nrows enr) →
            texts (head_frame 10 (take_rows order enr)) "Product ID" ≡ₚ
            texts enr "Product ID") as Hall.
  { intros order Hperm.
    rewrite (texts_head_take _ _ _ _ pid_text Hpid).
    unfold texts. rewrite Hpid.
    assert (order ≡ₚ seq 0 (length pid_text)) as Hperm'.
    { rewrite Hperm. by replace (length pid_text) with (nrows enr) by lia. }
    rewrite take_ge.
    - by apply take_at_Permutation.
    - rewrite length_take_at.
      + rewrite Hperm, length_seq. lia.
      + apply Permutation_seq_range. exact Hperm'. }
  rewrite Heq. cbn [final_top_revenue final_bottom_profit].
  split; apply Hall.
  - rewrite <- Hlt1. by apply nargsort_Permutation.
  - rewrite <- Hlt2. by apply nargsort_Permutation.
Qed.

Lemma short_table_lists_every_product_witness :
  texts (final_top_revenue example_report) "Product ID" ≡ₚ
    texts (final_df example_report) "Product ID" ∧
  texts (final_bottom_profit example_report) "Product ID" ≡ₚ
    texts (final_df example_report) "Product ID".
Proof.
  apply (short_table_lists_every_product stable_argsort naive_sum naive_mean example_raw).
  - exact stable_argsort_correct.
  - exact run_script_example.
  - vm_compute. lia.
Defined.

(** ** Grouping loses no row (lines 35, 75-79) *)

Lemma group_values_cons_insert (ks : list string) k0 (x : float) l :
  NoDup ks →
  concat ((λ k, snd <$> filter (λ kx : option string * float, fst kx = Some k)
                          ((Some k0, x) :: l)) <$> ks) ≡ₚ
  (if decide (k0 ∈ ks) then [x] else []) ++
  concat ((λ k, snd <$> filter (λ kx : option string * float, fst kx = Some k) l)
            <$> ks).
Proof.
  induction 1 as [|k ks Hk Hks IH]; [done|].
  cbn [fmap list_fmap concat]. rewrite IH, filter_cons. cbn [fst].
  destruct (decide (k0 = k)) as [->|Hne].
  - rewrite decide_True by done.
    rewrite (decide_True (P := k ∈ k :: ks)) by left.
    rewrite decide_False by done. done.
  - rewrite decide_False by congruence.
    destruct (decide (k0 ∈ ks)) as [Hin|Hnin].
    + rewrite decide_True by (by right).
      cbn. by rewrite Permutation_middle.
    + rewrite decide_False; [done|].
      by intros [?|?]%elem_of_cons.
Qed.

Lemma group_values_partition (ks : list string) (l : list (option string * float)) :
  NoDup ks →
  (∀ kx, kx ∈ l → ∃ k, fst kx = Some k ∧ k ∈ ks) →
  concat ((λ k, snd <$> filter (λ kx : option string * float, fst kx = Some k) l)
            <$> ks) ≡ₚ snd <$> l.
Proof.
  intros Hks. induction l as [|[k0 x] l IH]; intros Hl.
  - clear. induction ks as [|k ks IH]; [done|]. cbn. exact IH.
  - destruct (Hl (k0, x)) as (k & Hk & Hin); [left|]. cbn in Hk. subst k0.
    rewrite group_values_cons_insert by done.
    rewrite decide_True by done. cbn. f_equiv. apply IH.
    intros kx Hkx. apply Hl. by right.
Qed.

(** The groups [groupby] forms over keys without a gap hold every value
    of a column exactly once. *)
Lemma groups_partition keys xs :
  None ∉ keys →
  length keys = length xs →
  concat (group_values keys xs <$> group_keys keys) ≡ₚ xs.
Proof.
  intros Hgap Hlen. unfold group_values.
  rewrite group_values_partition.
  - rewrite snd_zip by lia. done.
  - apply NoDup_group_keys.
  - intros [k x] Hkx. cbn.
    assert (k ∈ keys) as Hk.
    { apply list_elem_of_lookup in Hkx as [i Hi].
      apply lookup_zip_with_Some in Hi as (k' & x' & [= <- <-] & Hk & _).
      by eapply list_elem_of_lookup_2. }
    destruct k as [k|]; [|done].
    exists k. split; [done|]. by apply elem_of_group_keys.
Qed.

(** X9 (lines 35, 75-79): after the Category fill no row has a missing
    key, so [groupby] drops no row: the groups by Category hold every
    Total Revenue, Total Profit and Customer Rating entry of the enriched
    table exactly once, and every group label is a Category of the table
    (with at least one row). *)
Theorem grouping_loses_no_row raw enr :
  run_step2 raw = Some enr →
  ∃ cats,
    columns enr !! "Category" = Some (Object cats) ∧
    (∀ k, k ∈ group_keys cats ↔ Some k ∈ cats) ∧
    (∀ c, c ∈ ["Total Revenue"; "Total Profit"; "Customer Rating"] →
       concat (group_values cats (floats enr c) <$> group_keys cats) ≡ₚ floats enr c).
Proof.
  intros Hrun.
  destruct (run_step2_inv _ _ Hrun)
    as (pid & pid_text & cat & us & up & cpu & cr & inv & [] & Htext & ->).
  destruct (enriched_columns raw pid_text cat us up cpu cr inv)
    as (Hcat & Htr & Htp & Hcr & _).
  exists (fillna_str "Unknown" cat).
  split; [done|]. split; [apply elem_of_group_keys|].
  intros c Hc.
  apply groups_partition; [apply fillna_str_no_gap|].
  rewrite length_fillna_str.
  repeat (apply elem_of_cons in Hc as [->|Hc]);
    [rewrite (floats_lookup _ _ _ Htr)|rewrite (floats_lookup _ _ _ Htp)
    |rewrite (floats_lookup _ _ _ Hcr)|by apply elem_of_nil in Hc];
    unfold total_revenue, total_profit, median_fill;
    rewrite ?length_zip_with, ?length_fillna, ?length_zip_with; lia.
Qed.

Lemma grouping_loses_no_row_witness :
  ∃ cats,
    columns example_enriched !! "Category" = Some (Object cats) ∧
    (∀ k, k ∈ group_keys cats ↔ Some k ∈ cats) ∧
    (∀ c, c ∈ ["Total Revenue"; "Total Profit"; "Customer Rating"] →
       concat (group_values cats (floats example_enriched c) <$> group_keys cats)
         ≡ₚ floats example_enriched c).
Proof.
  apply (grouping_loses_no_row example_raw). exact run_step2_example.
Defined.

(** ** The rows the report names (lines 141-146) *)

Lemma take_at_head_elem {A} (order : list nat) (ks : list A) :
  order ≡ₚ seq 0 (length ks) →
  (0 < length ks)%nat →
  ∃ i x, order !! 0%nat = Some i ∧ ks !! i = Some x ∧
         take_at order ks !! 0%nat = Some x.
Proof.
  intros Hperm Hpos.
  pose proof (Permutation_seq_range _ _ Hperm) as Hr.
  destruct order as [|i order].
  { apply Permutation_length in Hperm. rewrite length_seq in Hperm. cbn in Hperm. lia. }
  apply Forall_cons in Hr as [Hi _].
  destruct (lookup_lt_is_Some_2 ks i Hi) as [x Hx].
  exists i, x. split; [done|]. split; [done|].
  unfold take_at. cbn. by rewrite Hx.
Qed.

Lemma desc_head_largest order ks x :
  order ≡ₚ seq 0 (length ks) →
  desc_nan_last (take_at order ks) →
  take_at order ks !! 0%nat = Some x →
  largest_of ks x.
Proof.
  intros Hperm Hdesc Hx.
  pose proof (take_at_Permutation _ _ Hperm) as Hp.
  split.
  - rewrite <- Hp. by eapply list_elem_of_lookup_2.
  - intros y Hy. rewrite <- Hp in Hy.
    apply list_elem_of_lookup in Hy as [j Hj].
    destruct j as [|j].
    + rewrite Hx in Hj. injection Hj as <-.
      destruct (is_nan x) eqn:E; [done|]. right. by apply fle_refl.
    + destruct (Hdesc 0%nat (S j) x y) as [Hn|[Hn Hle]]; [lia|done..| |].
      * by destruct (is_nan x); [|left].
      * rewrite Hn. by right.
Qed.

Lemma asc_head_smallest order ks x :
  order ≡ₚ seq 0 (length ks) →
  asc_nan_last (take_at order ks) →
  take_at order ks !! 0%nat = Some x →
  smallest_of ks x.
Proof.
  intros Hperm Hasc Hx.
  pose proof (take_at_Permutation _ _ Hperm) as Hp.
  split.
  - rewrite <- Hp. by eapply list_elem_of_lookup_2.
  - intros y Hy. rewrite <- Hp in Hy.
    apply list_elem_of_lookup in Hy as [j Hj].
    destruct j as [|j].
    + rewrite Hx in Hj. injection Hj as <-.
      destruct (is_nan x) eqn:E; [done|]. right. by apply fle_refl.
    + destruct (Hasc 0%nat (S j) x y) as [Hn|[Hn Hle]]; [lia|done..| |].
      * by destruct (is_nan x); [|left].
      * rewrite Hn. by right.
Qed.

Lemma iloc_float_field i df r c x :
  iloc i df = At r →
  floats df c !! i = Some x →
  row_fields r !! c = Some (FloatVal x).
Proof.
  unfold iloc, floats.
  destruct (series_get (index df) i) as [label|]; [|done].
  intros [= <-] Hx. cbn. rewrite lookup_omap.
  destruct (columns df !! c) as [[xs|?|?|?]|]; try done.
  cbn. by rewrite Hx.
Qed.

Lemma iloc_in_range i df :
  (i < nrows df)%nat → ∃ r, iloc i df = At r ∧ series_get (index df) i = Some (row_name r).
Proof.
  intros Hi. unfold iloc, nrows in *.
  destruct (index df) as [xs|xs|xs|xs]; cbn in *;
    destruct (lookup_lt_is_Some_2 xs i Hi) as [x ->]; cbn; by eexists.
Qed.

(** X10 (lines 141-146): on a table with at least one product and with a
    correct sorting kernel, the three positional reads of the report
    raise no IndexError.  [top_product] carries a largest Total Revenue of
    the enriched table and [bottom_product] a smallest Total Profit (NaN
    only if every entry is NaN); [top_category] is named after a Category
    of the table whose unrounded revenue sum is a largest one, and shows
    that sum rounded to two decimals. *)
Theorem report_names_extremes σ gs gm parsed rep :
  argsort_correct σ →
  run_script σ gs gm parsed = Some rep →
  (0 < nrows (final_df rep))%nat →
  ∃ top_category top_product bottom_product cats k s tr tp,
    step5 rep = At (top_category, top_product, bottom_product) ∧
    row_fields top_product !! "Total Revenue" = Some (FloatVal tr) ∧
    largest_of (floats (final_df rep) "Total Revenue") tr ∧
    row_fields bottom_product !! "Total Profit" = Some (FloatVal tp) ∧
    smallest_of (floats (final_df rep) "Total Profit") tp ∧
    columns (final_df rep) !! "Category" = Some (Object cats) ∧
    row_name top_category = TextVal (Some k) ∧
    Some k ∈ cats ∧
    s = gs (group_values cats (floats (final_df rep) "Total Revenue") k) ∧
    largest_of (revenue_sums gs cats (floats (final_df rep) "Total Revenue")) s ∧
    row_fields top_category !! "Total_Revenue" = Some (FloatVal (round2 s)).
Proof.
  intros Hσ Hrep Hpos.
  pose proof (run_script_inv σ gs gm parsed rep Hrep) as Hrun.
  destruct (run_script_frames σ gs gm parsed _ Hrun)
    as (cats & trs & tps & crs & Hcat & Htr & Htp & _ & Hlen & Hcats & Heq).
  rewrite Hrep in Heq. injection Heq as Heq.
  set (enr := final_df rep) in *.
  destruct (run_step2_inv _ _ Hrun)
    as (pid & pid_text & cat & us & up & cpu & cr & inv & [] & _ & Henr).
  pose proof (enriched_columns parsed pid_text cat us up cpu cr inv) as Hcols.
  cbv zeta in Hcols. rewrite <- Henr in Hcols.
  destruct Hcols as (_ & _ & Htp' & _).
  assert (nrows enr = nrows parsed) as Hn by (by rewrite Henr).
  assert (length tps = nrows enr) as Hlen'.
  { rewrite Htp in Htp'. injection Htp' as ->. col_len. }
  assert (cats = fillna_str "Unknown" cat) as Hcats' by (by apply Hcats).
  assert (length cats = nrows enr) as Hlenc.
  { rewrite Hcats', length_fillna_str. lia. }
  assert (None ∉ cats) as Hgap by (rewrite Hcats'; apply fillna_str_no_gap).
  rewrite (floats_lookup enr _ trs Htr), (floats_lookup enr _ tps Htp).
  (* line 145 *)
  set (by_revenue := nargsort σ trs false) in *.
  assert (by_revenue ≡ₚ seq 0 (length trs)) as Hpt by (by apply nargsort_Permutation).
  destruct (take_at_head_elem by_revenue trs Hpt) as (it & tr & _ & _ & Htr0); [lia|].
  assert (floats (final_top_revenue rep) "Total Revenue" !! 0%nat = Some tr) as Hf1.
  { rewrite Heq. cbn [final_top_revenue].
    rewrite (floats_head_take _ _ _ _ trs Htr). by rewrite lookup_take_lt by lia. }
  destruct (iloc_in_range 0 (final_top_revenue rep)) as (top_product & Hi1 & _).
  { rewrite Heq. cbn [final_top_revenue].
    rewrite nrows_head_take.
    - rewrite Hpt, length_seq. lia.
    - apply Permutation_seq_range. by rewrite <- Hlen. }
  (* line 146 *)
  set (by_profit := nargsort σ tps true) in *.
  assert (by_profit ≡ₚ seq 0 (length tps)) as Hpb by (by apply nargsort_Permutation).
  destruct (take_at_head_elem by_profit tps Hpb) as (ib & tp & _ & _ & Htp0); [lia|].
  assert (floats (final_bottom_profit rep) "Total Profit" !! 0%nat = Some tp) as Hf2.
  { rewrite Heq. cbn [final_bottom_profit].
    rewrite (floats_head_take _ _ _ _ tps Htp). by rewrite lookup_take_lt by lia. }
  destruct (iloc_in_range 0 (final_bottom_profit rep)) as (bottom_product & Hi2 & _).
  { rewrite Heq. cbn [final_bottom_profit].
    rewrite nrows_head_take.
    - rewrite Hpb, length_seq. lia.
    - apply Permutation_seq_range. by rewrite <- Hlen'. }
  (* line 141 *)
  set (sums := revenue_sums gs cats trs) in *.
  set (by_sum := nargsort σ sums false) in *.
  assert (length sums = length (group_keys cats)) as Hls.
  { unfold sums, revenue_sums. by rewrite length_fmap. }
  assert (by_sum ≡ₚ seq 0 (length (group_keys cats))) as Hpc.
  { rewrite <- Hls. by apply nargsort_Permutation. }
  assert (0 < length (group_keys cats))%nat as Hgroups.
  { destruct cats as [|[k0|] cats']; [cbn in Hlenc; lia| |by destruct Hgap; left].
    assert (k0 ∈ group_keys (Some k0 :: cats')) as Hk0
      by (apply elem_of_group_keys; left).
    destruct (group_keys (Some k0 :: cats')); [by apply elem_of_nil in Hk0|cbn; lia]. }
  destruct (take_at_head_elem by_sum (group_keys cats) Hpc Hgroups)
    as (ic & k & _ & Hk & Hk0).
  destruct (rollup_columns gs gm by_sum cats trs tps crs) as (Hidx & Hrev & _).
  assert (final_category_performance rep =
          rounded (take_rows by_sum (grouped gs gm cats trs tps crs))) as Hroll
    by (by rewrite Heq).
  rewrite <- Hroll in Hidx, Hrev.
  destruct (iloc_in_range 0 (final_category_performance rep))
    as (top_category & Hi3 & Hname).
  { unfold nrows. rewrite Hidx. cbn [slen]. rewrite length_fmap.
    by apply lookup_lt_Some in Hk0. }
  rewrite Hidx in Hname. cbn [series_get] in Hname.
  rewrite list_lookup_fmap, Hk0 in Hname. cbn in Hname.
  exists top_category, top_product, bottom_product, cats, k,
    (gs (group_values cats trs k)), tr, tp.
  split; [unfold step5; by rewrite Hi3, Hi1, Hi2|].
  split; [by eapply iloc_float_field|].
  split; [by eapply desc_head_largest; [|apply nargsort_desc_nan_last|]|].
  split; [by eapply iloc_float_field|].
  split; [by eapply asc_head_smallest; [|apply nargsort_asc_nan_last|]|].
  split; [done|].
  split; [by injection Hname as <-|].
  split; [by apply elem_of_group_keys, (list_elem_of_lookup_2 _ ic)|].
  split; [done|].
  split.
  - eapply (desc_head_largest by_sum);
      [by apply nargsort_Permutation|by apply nargsort_desc_nan_last|].
    unfold sums, revenue_sums. rewrite take_at_fmap, list_lookup_fmap.
    fold sums. by rewrite Hk0.
  - eapply iloc_float_field; [done|].
    rewrite Hrev, list_lookup_fmap. by rewrite Hk0.
Qed.

Lemma report_names_extremes_witness :
  ∃ top_category top_product bottom_product cats k s tr tp,
    step5 example_report = At (top_category, top_product, bottom_product) ∧
    row_fields top_product !! "Total Revenue" = Some (FloatVal tr) ∧
    largest_of (floats (final_df example_report) "Total Revenue") tr ∧
    row_fields bottom_product !! "Total Profit" = Some (FloatVal tp) ∧
    smallest_of (floats (final_df example_report) "Total Profit") tp ∧
    columns (final_df example_report) !! "Category" = Some (Object cats) ∧
    row_name top_category = TextVal (Some k) ∧
    Some k ∈ cats ∧
    s = naive_sum (group_values cats (floats (final_df example_report) "Total Revenue") k) ∧
    largest_of (revenue_sums naive_sum cats
                  (floats (final_df example_report) "Total Revenue")) s ∧
    row_fields top_category !! "Total_Revenue" = Some (FloatVal (round2 s)).
Proof.
  apply (report_names_extremes stable_argsort naive_sum naive_mean example_raw).
  - exact stable_argsort_correct.
  - exact run_script_example.
  - vm_compute. lia.
Defined.

(** ** The Product Name column (lines 67, 71) *)

Example labels_repr_example :
  labels_repr ["Product Name"] +:+ " not in index" = "['Product Name'] not in index".
Proof. reflexivity. Qed.

Lemma lookup_head_take_None n order df c :
  columns (head_frame n (take_rows order df)) !! c = None ↔ columns df !! c = None.
Proof.
  unfold head_frame, take_rows. cbn [columns]. rewrite !lookup_fmap.
  by destruct (columns df !! c).
Qed.

Lemma lookup_head_take_is_Some n order df c :
  is_Some (columns df !! c) →
  is_Some (columns (head_frame n (take_rows order df)) !! c).
Proof.
  unfold head_frame, take_rows. cbn [columns]. rewrite !lookup_fmap.
  intros [s ->]. by eexists.
Qed.

Lemma filter_absent_nil (df : DataFrame) cols :
  (∀ c, c ∈ cols → is_Some (columns df !! c)) →
  filter (λ c, columns df !! c = None) cols = [].
Proof.
  induction cols as [|c cols IH]; intros H; [done|].
  rewrite filter_cons. destruct (H c) as [s Hs]; [left|].
  rewrite decide_False by (by rewrite Hs). apply IH.
  intros c' Hc'. apply H. by right.
Qed.

Lemma select_allocates h l df cols :
  h !! l = Some df →
  (∀ c, c ∈ cols → is_Some (columns df !! c)) →
  allocates (select l cols) h
    (mkFrame (index df) (filter (λ kv, kv.1 ∈ cols) (columns df))).
Proof.
  intros Hl Hcols. unfold select.
  eapply bind_load_allocates; [done|]. cbv zeta.
  rewrite filter_absent_nil by done.
  rewrite decide_True by done. apply alloc_allocates.
Qed.

Lemma print_allocates h l df cols :
  h !! l = Some df →
  (∀ c, c ∈ cols → is_Some (columns df !! c)) →
  ∃ shown, allocates (let! shown := select l cols in round_frame shown) h shown.
Proof.
  intros Hl Hcols. eexists.
  eapply bind_allocates; [by apply select_allocates|].
  intros l' h' Hl'. by apply round_frame_allocates.
Qed.

(** The selection of line 67 on a frame without Product Name. *)
Lemma print_top_revenue_absent {A} h l df (k : loc → M A) :
  h !! l = Some df →
  columns df !! "Product Name" = None →
  is_Some (columns df !! "Category") →
  is_Some (columns df !! "Total Revenue") →
  is_Some (columns df !! "Total Profit") →
  bind (print_top_revenue l) k h = Raise (KeyError "['Product Name'] not in index").
Proof.
  intros Hl Hpn [? Hc] [? Htr] [? Htp].
  unfold print_top_revenue, select. rewrite !bind_assoc.
  unfold bind at 1, load. rewrite Hl. cbv zeta.
  rewrite !filter_cons, filter_nil.
  destruct (decide (columns df !! "Product Name" = None)); [|done].
  destruct (decide (columns df !! "Category" = None)); [congruence|].
  destruct (decide (columns df !! "Total Revenue" = None)); [congruence|].
  destruct (decide (columns df !! "Total Profit" = None)); [congruence|].
  reflexivity.
Qed.

(** X11 (lines 66-67): the script needs a Product Name column although no
    metric depends on it.  When cleaning and metric derivation run
    through on a table without that column, the top-revenue frame is
    built and printing it raises
    KeyError("['Product Name'] not in index"). *)
Theorem product_name_absent σ gs gm parsed enr :
  run_step2 parsed = Some enr →
  columns parsed !! "Product Name" = None →
  script_with_tables σ gs gm parsed ∅ =
    Raise (KeyError "['Product Name'] not in index").
Proof.
  intros Hrun Hpn.
  destruct (run_step2_inv _ _ Hrun)
    as (pid & pid_text & cat & us & up & cpu & cr & inv & Hld & Htext & ->).
  destruct (enriched_columns parsed pid_text cat us up cpu cr inv)
    as (Hcat & Htr & Htp & Hcr & _).
  assert (columns (enriched parsed pid_text cat us up cpu cr inv) !! "Product Name"
          = None) as Hpn'.
  { unfold enriched. cbn [columns with_column].
    by repeat (rewrite lookup_insert_ne by done). }
  set (enr := enriched _ _ _ _ _ _ _ _) in *.
  unfold script_with_tables. unfold bind at 1, alloc at 1. cbv zeta.
  set (l0 := fresh (dom (∅ : gmap loc DataFrame))).
  set (h0 := <[l0 := parsed]> (∅ : gmap loc DataFrame)).
  assert (h0 !! l0 = Some parsed) as Hl0 by apply lookup_insert_eq.
  unfold bind at 1.
  rewrite (step2_run h0 l0 parsed pid pid_text cat us up cpu cr inv Hl0 Hld Htext).
  fold enr. set (l1 := fresh (dom h0)). set (h1 := <[l1 := enr]> h0).
  assert (h1 !! l1 = Some enr) as Hl1 by apply lookup_insert_eq.
  destruct (top_revenue_allocates σ h1 l1 enr _ Hl1 Htr)
    as (l2 & h2 & Hrun2 & Hl2 & Hold2).
  unfold bind at 1. rewrite Hrun2.
  eapply print_top_revenue_absent; [exact Hl2|..].
  - by apply lookup_head_take_None.
  - apply lookup_head_take_is_Some. by rewrite Hcat.
  - apply lookup_head_take_is_Some. by rewrite Htr.
  - apply lookup_head_take_is_Some. by rewrite Htp.
Qed.

(** X12 (lines 66-79): on a table that has a Product Name column, printing
    the two tables of products raises nothing and changes no frame: the
    run ends with the same five frames as without the print statements. *)
Theorem tables_leave_the_frames σ gs gm parsed enr :
  run_step2 parsed = Some enr →
  is_Some (columns parsed !! "Product Name") →
  ∃ rep,
    report_of (script_with_tables σ gs gm parsed ∅) = Some rep ∧
    run_script σ gs gm parsed = Some rep.
Proof.
  intros Hrun Hpn.
  destruct (run_script_frames σ gs gm parsed enr Hrun)
    as (cats & trs & tps & crs & Hcat & Htr & Htp & Hcr & _ & _ & Hrep).
  eexists. split; [|exact Hrep].
  destruct (run_step2_inv _ _ Hrun)
    as (pid & pid_text & cat & us & up & cpu & cr & inv & Hld & Htext & Henr).
  assert (is_Some (columns enr !! "Product Name")) as Hpn'.
  { rewrite Henr. unfold enriched. cbn [columns with_column].
    by repeat (rewrite lookup_insert_ne by done). }
  assert (is_Some (columns enr !! "Units Sold")) as Hus.
  { rewrite Henr. unfold enriched. eexists. col_lookup. }
  unfold script_with_tables. unfold bind at 1, alloc at 1. cbv zeta.
  set (l0 := fresh (dom (∅ : gmap loc DataFrame))).
  set (h0 := <[l0 := parsed]> (∅ : gmap loc DataFrame)).
  assert (h0 !! l0 = Some parsed) as Hl0 by apply lookup_insert_eq.
  unfold bind at 1.
  rewrite (step2_run h0 l0 parsed pid pid_text cat us up cpu cr inv Hl0 Hld Htext).
  rewrite <- Henr. set (l1 := fresh (dom h0)). set (h1 := <[l1 := enr]> h0).
  assert (h1 !! l1 = Some enr) as Hl1 by apply lookup_insert_eq.
  assert (h1 !! l0 = Some parsed) as Hl0' by (by apply alloc_old).
  destruct (top_revenue_allocates σ h1 l1 enr _ Hl1 Htr)
    as (l2 & h2 & Hrun2 & Hl2 & Hold2).
  destruct (print_allocates h2 l2 _
              ["Product Name"; "Category"; "Total Revenue"; "Total Profit"] Hl2)
    as (shown_top & l3 & h3 & Hrun3 & _ & Hold3).
  { intros c Hc. apply lookup_head_take_is_Some.
    repeat (apply elem_of_cons in Hc as [->|Hc]); [done|by eexists..|].
    by apply elem_of_nil in Hc. }
  destruct (bottom_profit_allocates σ h3 l1 enr _ (Hold3 _ _ (Hold2 _ _ Hl1)) Htp)
    as (l4 & h4 & Hrun4 & Hl4 & Hold4).
  destruct (print_allocates h4 l4 _
              ["Product Name"; "Category"; "Total Profit"; "Units Sold"] Hl4)
    as (shown_bottom & l5 & h5 & Hrun5 & _ & Hold5).
  { intros c Hc. apply lookup_head_take_is_Some.
    repeat (apply elem_of_cons in Hc as [->|Hc]); [done|by eexists..|done|].
    by apply elem_of_nil in Hc. }
  destruct (category_performance_allocates σ gs gm h5 l1 enr _ _ _ _
              (Hold5 _ _ (Hold4 _ _ (Hold3 _ _ (Hold2 _ _ Hl1)))) Hcat Htr Htp Hcr)
    as (l6 & h6 & Hrun6 & Hl6 & Hold6).
  unfold bind at 1. rewrite Hrun2.
  unfold bind at 1. unfold print_top_revenue. rewrite Hrun3.
  unfold bind at 1. rewrite Hrun4.
  unfold bind at 1. unfold print_bottom_profit. rewrite Hrun5.
  unfold bind at 1. rewrite Hrun6.
  unfold ret, report_of.
  rewrite (Hold6 _ _ (Hold5 _ _ (Hold4 _ _ (Hold3 _ _ (Hold2 _ _ Hl0'))))).
  rewrite (Hold6 _ _ (Hold5 _ _ (Hold4 _ _ (Hold3 _ _ (Hold2 _ _ Hl1))))).
  rewrite (Hold6 _ _ (Hold5 _ _ (Hold4 _ _ (Hold3 _ _ Hl2)))).
  rewrite (Hold6 _ _ (Hold5 _ _ Hl4)), Hl6.
  reflexivity.
Qed.

Lemma product_name_absent_witness :
  script_with_tables stable_argsort naive_sum naive_mean example_raw ∅ =
    Raise (KeyError "['Product Name'] not in index").
Proof.
  apply (product_name_absent stable_argsort naive_sum naive_mean example_raw
           example_enriched).
  - exact run_step2_example.
  - vm_compute. reflexivity.
Defined.

Lemma tables_leave_the_frames_witness :
  ∃ rep,
    report_of (script_with_tables stable_argsort naive_sum naive_mean named_raw ∅)
      = Some rep ∧
    run_script stable_argsort naive_sum naive_mean named_raw = Some rep.
Proof.
  apply (tables_leave_the_frames stable_argsort naive_sum naive_mean named_raw
           (default empty_frame (run_step2 named_raw))).
  - vm_compute. reflexivity.
  - vm_compute. by eexists.
Defined.

(** ** The fill value is a median (lines 31-32) *)

Lemma merge_sort_present xs :
  StronglySorted fle (merge_sort fle (present xs)) ∧
  merge_sort fle (present xs) ≡ₚ present xs.
Proof.
  split; [|apply merge_sort_Permutation].
  apply Sorted_StronglySorted; [apply _|].
  apply (Sorted_merge_sort_on fle (λ x, is_nan x = false)).
  - intros x y Hx Hy Hnle. apply fle_total; [done..|].
    unfold fle in Hnle. by destruct (fleb x y).
  - apply present_not_nan.
Qed.

(** X13 (lines 31-32): the value that fills the gaps of a column with at
    least one present entry is a median of the present entries, whatever
    their order in the column.  With an odd number of them it is one of
    them, with as many entries below or equal as above or equal; with an
    even number it is (a + b) / 2 in double arithmetic for the two middle
    entries a <= b. *)
Theorem fill_value_is_median xs :
  present xs ≠ [] →
  ∃ lo hi,
    length lo = length hi ∧
    ((present xs ≡ₚ lo ++ nanmedian xs :: hi ∧
      Forall (λ y, fle y (nanmedian xs)) lo ∧
      Forall (fle (nanmedian xs)) hi) ∨
     (∃ a b,
        present xs ≡ₚ lo ++ a :: b :: hi ∧
        fle a b ∧
        Forall (λ y, fle y a) lo ∧
        Forall (fle b) hi ∧
        nanmedian xs = fdiv (fadd a b) (of_Z 2))).
Proof.
  intros Hne. unfold nanmedian, median_of.
  destruct (merge_sort_present xs) as [Hs Hperm].
  set (vs := merge_sort fle (present xs)) in *.
  assert (length vs ≠ 0)%nat as Hlen.
  { rewrite Hperm. by destruct (present xs). }
  destruct (length vs) as [|n'] eqn:Hn; [done|]. clear Hlen.
  set (n := S n') in *. set (k := (n / 2)%nat).
  destruct (Nat.odd n) eqn:Hodd.
  - assert (n = 2 * k + 1)%nat as Hk.
    { apply Nat.odd_spec in Hodd as [m Hm]. subst k.
      pose proof (Nat.div_mod_eq n 2). pose proof (Nat.mod_upper_bound n 2). lia. }
    destruct (lookup_lt_is_Some_2 vs k) as [m Hm]; [lia|].
    rewrite Hm. cbn [default].
    exists (take k vs), (drop (S k) vs).
    pose proof (take_drop_middle vs k m Hm) as Hsplit.
    split; [rewrite length_take, length_drop; lia|].
    left. rewrite <- Hsplit in Hs.
    apply StronglySorted_app in Hs as (Hlo & _ & Hhi).
    apply StronglySorted_cons in Hhi as [Hhi _].
    split; [by rewrite <- Hperm, <- Hsplit at 1|].
    split; [|done].
    apply Forall_forall. intros y Hy. apply (Hlo y m Hy). left.
  - assert (n = 2 * k ∧ 0 < k)%nat as [Hk Hpos].
    { assert (Nat.even n = true) as Heven by (by rewrite <- Nat.negb_odd, Hodd).
      apply Nat.even_spec in Heven as [m Hm]. subst k.
      pose proof (Nat.div_mod_eq n 2). pose proof (Nat.mod_upper_bound n 2).
      unfold n in *. lia. }
    destruct (lookup_lt_is_Some_2 vs (k - 1)) as [a Ha]; [lia|].
    destruct (lookup_lt_is_Some_2 vs k) as [b Hb]; [lia|].
    rewrite Ha, Hb. cbn [default].
    exists (take (k - 1) vs), (drop (S k) vs).
    pose proof (take_drop_middle vs (k - 1) a Ha) as Hsplit.
    assert (drop (S (k - 1)) vs = b :: drop (S k) vs) as Hdrop.
    { replace (S (k - 1)) with k by lia. by apply drop_S. }
    rewrite Hdrop in Hsplit.
    split; [rewrite length_take, length_drop; lia|].
    right. exists a, b. rewrite <- Hsplit in Hs.
    apply StronglySorted_app in Hs as (Hlo & _ & Hhi).
    apply StronglySorted_cons in Hhi as [Hab Hhi].
    apply StronglySorted_cons in Hhi as [Hhi _].
    apply Forall_cons in Hab as [Hab _].
    split; [by rewrite <- Hperm, <- Hsplit at 1|].
    split; [done|]. split; [|done].
    apply Forall_forall. intros y Hy. apply (Hlo y a Hy). left.
Qed.

Lemma fill_value_is_median_witness :
  ∃ lo hi,
    length lo = length hi ∧
    ((present [of_Z 4; nan] ≡ₚ lo ++ nanmedian [of_Z 4; nan] :: hi ∧
      Forall (λ y, fle y (nanmedian [of_Z 4; nan])) lo ∧
      Forall (fle (nanmedian [of_Z 4; nan])) hi) ∨
     (∃ a b,
        present [of_Z 4; nan] ≡ₚ lo ++ a :: b :: hi ∧
        fle a b ∧
        Forall (λ y, fle y a) lo ∧
        Forall (fle b) hi ∧
        nanmedian [of_Z 4; nan] = fdiv (fadd a b) (of_Z 2))).
Proof.
  apply (fill_value_is_median [of_Z 4; nan]).
  vm_compute. discriminate.
Defined.

(** ** Signs of revenue and turnover (lines 42, 45) *)

Lemma binary_round_aux_nonneg m e l :
  0 ≤ m → nonneg (binary_round_aux prec emax false m e l).
Proof.
  intros H. unfold binary_round_aux.
  pose proof (shr_fexp_nonneg m e l H) as H1.
  destruct (shr_fexp prec emax m e l) as [mrs' e']; simpl in H1.
  pose proof (shr_fexp_nonneg _ e' loc_Exact
                (round_nearest_even_nonneg _ (loc_of_shr_record mrs') H1)) as H2.
  destruct (shr_fexp prec emax (round_nearest_even _ _) e' loc_Exact)
    as [mrs'' e'']; simpl in H2.
  destruct (shr_m mrs'') as [|p|p]; [done| |lia].
  by destruct (e'' <=? emax - prec).
Qed.

Lemma fmul_nonneg u p :
  nonneg u → nonneg p → is_nan (fmul u p) = true ∨ nonneg (fmul u p).
Proof.
  destruct u as [[]|[]| |[] mu eu], p as [[]|[]| |[] mp ep]; try done;
    intros _ _; try (by left); try (by right).
  right. by apply binary_round_aux_nonneg.
Qed.

Lemma fdiv_nonneg u v :
  nonneg u → nonneg v → is_zero v = false →
  is_nan (fdiv u v) = true ∨ nonneg (fdiv u v).
Proof.
  destruct u as [[]|[]| |[] mu eu], v as [[]|[]| |[] mv ev]; try done;
    intros _ _ _; try (by left); try (by right).
  right. unfold fdiv, SFdiv.
  pose proof (SFdiv_core_binary_nonneg mu eu mv ev) as H.
  destruct (SFdiv_core_binary _ _ _ _ _ _) as [[mz ez] lz]; simpl in H.
  by apply binary_round_aux_nonneg.
Qed.

(** X14 (lines 42, 45): on a table whose Units Sold, Unit Price and
    Inventory are float64 columns, in a row whose Units Sold and Unit
    Price are not negative, Total Revenue is not negative (or NaN, which
    arises only from zero times infinity); in a row whose Units Sold and
    Inventory are not negative and whose Inventory is not zero, Inventory
    Turnover is not negative (or NaN).  An Inventory of -0.0 is excluded
    because a positive number divided by it is minus infinity.  Columns
    loaded as int64 are not covered: their products wrap around. *)
Theorem revenue_and_turnover_not_negative raw enr us up inv i :
  columns raw !! "Units Sold" = Some (Float64 us) →
  columns raw !! "Unit Price" = Some (Float64 up) →
  columns raw !! "Inventory" = Some (Float64 inv) →
  run_step2 raw = Some enr →
  (i < nrows enr)%nat →
  ∃ u p v tr it,
    cell enr "Units Sold" i = Some u ∧
    cell enr "Unit Price" i = Some p ∧
    cell enr "Inventory" i = Some v ∧
    cell enr "Total Revenue" i = Some tr ∧
    cell enr "Inventory Turnover" i = Some it ∧
    (nonneg u → nonneg p → is_nan tr = true ∨ nonneg tr) ∧
    (nonneg u → nonneg p → is_nan tr = true →
       (is_inf u = true ∧ is_zero p = true) ∨ (is_zero u = true ∧ is_inf p = true)) ∧
    (nonneg u → nonneg v → is_zero v = false → is_nan it = true ∨ nonneg it).
Proof.
  intros _ _ _ Hrun Hi.
  destruct (enriched_row raw enr i Hrun Hi)
    as (u0 & u & p & c & v & _ & _ & Hu & Hp & _ & Hv & Htr & _ & _ & Hit).
  exists u, p, v, (fmul u p), (fdiv u v).
  do 5 (split; [done|]).
  split; [apply fmul_nonneg|]. split; [|apply fdiv_nonneg].
  intros Hnu Hnp. rewrite fmul_is_nan.
  rewrite (nonneg_not_nan _ Hnu), (nonneg_not_nan _ Hnp). cbn.
  intros [[-> ->]%andb_prop|[-> ->]%andb_prop]%orb_prop; auto.
Qed.

Lemma revenue_and_turnover_not_negative_witness :
  ∃ u p v tr it,
    cell example_enriched "Units Sold" 0 = Some u ∧
    cell example_enriched "Unit Price" 0 = Some p ∧
    cell example_enriched "Inventory" 0 = Some v ∧
    cell example_enriched "Total Revenue" 0 = Some tr ∧
    cell example_enriched "Inventory Turnover" 0 = Some it ∧
    (nonneg u → nonneg p → is_nan tr = true ∨ nonneg tr) ∧
    (nonneg u → nonneg p → is_nan tr = true →
       (is_inf u = true ∧ is_zero p = true) ∨ (is_zero u = true ∧ is_inf p = true)) ∧
    (nonneg u → nonneg v → is_zero v = false → is_nan it = true ∨ nonneg it).
Proof.
  apply (revenue_and_turnover_not_negative example_raw example_enriched
           [of_Z 10; of_Z 0] [of_Z 5; of_Z 5] [of_Z 4; of_Z 0]).
  - reflexivity.
  - reflexivity.
  - reflexivity.
  - exact run_step2_example.
  - vm_compute. lia.
Defined.
